(** * github-to-omnifocus: reconciliation of GitHub work items with OmniFocus tasks

    A shallow embedding of [src/main.js].  JavaScript arrays are [seq]s,
    [Array.prototype.filter] is [filter], [Array.prototype.some] is [has],
    [Array.prototype.map] is [map] (or a monadic map when the callback has
    effects), strings are [string]s of 8-bit code units, and the effects of
    [main] (calls to GitHub and OmniFocus, console output, exceptions,
    [process.exit]) are threaded through a small trace monad. *)

From HB Require Import structures.
From Stdlib Require Import String Ascii DecimalString.
From Stdlib Require DecimalNat.
From mathcomp Require Import ssreflect ssrfun ssrbool eqtype ssrnat seq.

Set Implicit Arguments.
Unset Strict Implicit.
Unset Printing Implicit Defensive.

Local Open Scope string_scope.

(** ** Strings *)

HB.instance Definition _ := hasDecEq.Build ascii Ascii.eqb_spec.
HB.instance Definition _ := hasDecEq.Build string String.eqb_spec.

(** [s.startsWith(p)]: the code units of [p] are the first ones of [s].
    The receiver comes first, as in the source. *)
Fixpoint startsWith (s p : string) : bool :=
  match p, s with
  | EmptyString, _ => true
  | String c p', String d s' => (d == c) && startsWith s' p'
  | String _ _, EmptyString => false
  end.

(** Template literal [`${n}`] and [str + n] for a number [n] that is a
    non-negative integer, as issue numbers are: its decimal digits. *)
Definition numberToString (n : nat) : string :=
  NilEmpty.string_of_uint (Nat.to_uint n).

(** ** The two task classes of main.js (lines 13-33) *)

Module PotentialTask.
Record t := mk { prefix : string; title : string; body : string }.

Definition to_tuple (p : t) := (prefix p, title p, body p).
Definition of_tuple (x : string * string * string) := mk x.1.1 x.1.2 x.2.
Lemma to_tupleK : cancel to_tuple of_tuple.
Proof. by case. Qed.
End PotentialTask.
HB.instance Definition _ :=
  Equality.copy PotentialTask.t (can_type PotentialTask.to_tupleK).

Module CurrentTask.
Record t := mk { id : string; title : string }.

Definition to_pair (c : t) := (id c, title c).
Definition of_pair (x : string * string) := mk x.1 x.2.
Lemma to_pairK : cancel to_pair of_pair.
Proof. by case. Qed.
End CurrentTask.
HB.instance Definition _ :=
  Equality.copy CurrentTask.t (can_type CurrentTask.to_pairK).

Abbreviation potentialTask := PotentialTask.t.
Abbreviation currentTask := CurrentTask.t.

(** ** The reconciliation filters *)

(** main.js 146-149, the filter of [addNewIssues]:
    [issues.filter(iss => !currentTasks.some(e => e.title.startsWith(iss.prefix)))]. *)
Definition planCreations (issues : seq potentialTask)
    (currentTasks : seq currentTask) : seq potentialTask :=
  [seq iss <- issues
  | ~~ has (fun e => startsWith (CurrentTask.title e) (PotentialTask.prefix iss))
           currentTasks].

(** main.js 174-181, the filter of [completeMissingIssues]:
    [issuePrefixes = issues.map(iss => iss.prefix)] and
    [currentTasks.filter(t => !issuePrefixes.some(e => t.title.startsWith(e)))]. *)
Definition planRetirements (currentTasks : seq currentTask)
    (issues : seq potentialTask) : seq currentTask :=
  let issuePrefixes := [seq PotentialTask.prefix iss | iss <- issues] in
  [seq t <- currentTasks
  | ~~ has (fun e => startsWith (CurrentTask.title t) e) issuePrefixes].

(** The remote items that already have a task: the complement of
    [planCreations] inside [issues].  The source never builds this list; it
    is the "matched subset" the partition property speaks about. *)
Definition alreadyPresent (issues : seq potentialTask)
    (currentTasks : seq currentTask) : seq potentialTask :=
  [seq iss <- issues
  | has (fun e => startsWith (CurrentTask.title e) (PotentialTask.prefix iss))
        currentTasks].

(** ** The regular expression of the pull-request identifier extractor

    main.js 98:
    [/^https:\/\/github[^\0]ibm[^\0]com\/([^\/]+)\/([^\/]+)/m].
    After the anchor the pattern is a sequence of three kinds of atoms: a
    literal character, a negated one-character class, and a capturing group
    holding a greedy [+] over a negated one-character class. *)

Inductive atom :=
| Chr (c : ascii)          (* the character [c] *)
| NotChr (c : ascii)       (* [[^c]] *)
| GroupPlusNot (c : ascii) (* [([^c]+)] *).

Definition literal (s : string) : seq atom := [seq Chr c | c <- list_ascii_of_string s].

Definition NUL : ascii := zero.

Definition html_url_pattern : seq atom :=
  literal "https://github" ++ [:: NotChr NUL] ++ literal "ibm" ++ [:: NotChr NUL]
  ++ literal "com/" ++ [:: GroupPlusNot "/"; Chr "/"; GroupPlusNot "/"].

(** Backtracking matcher: [matchHere p s] matches [p] against a prefix of
    [s] and returns the captures, leftmost group first.  A group first tries
    to take one more character and gives it back only when the rest of the
    pattern then fails, which is the greedy semantics of [+]. *)
Fixpoint matchHere (p : seq atom) : string -> option (seq string) :=
  match p with
  | [::] => fun _ => Some [::]
  | Chr c :: p' => fun s =>
      if s is String d s' then if d == c then matchHere p' s' else None
      else None
  | NotChr c :: p' => fun s =>
      if s is String d s' then if d != c then matchHere p' s' else None
      else None
  | GroupPlusNot c :: p' =>
      fix more (s : string) : option (seq string) :=
        if s is String d s' then
          if d == c then None
          else match more s' with
               | Some (g :: caps) => Some (String d g :: caps)
               | _ => if matchHere p' s' is Some caps
                      then Some (String d EmptyString :: caps) else None
               end
        else None
  end.

(** Line terminators among the 8-bit code units: LF and CR. *)
Definition isLineTerminator (c : ascii) : bool :=
  (c == "010"%char) || (c == "013"%char).

(** [^] with the [m] flag holds at the start of the input and after a line
    terminator; a non-global [match] returns the leftmost match.
    [atLineStart] tells whether the current position satisfies [^]. *)
Fixpoint matchFrom (p : seq atom) (atLineStart : bool) (s : string)
    : option (seq string) :=
  let here := if atLineStart then matchHere p s else None in
  if here is Some caps then Some caps
  else if s is String c s' then matchFrom p (isLineTerminator c) s'
       else None.

(** [str.match(/^.../m)]: [None] is JavaScript's [null]; the captures are
    [m[1]], [m[2]], ... *)
Definition regexMatch (p : seq atom) (s : string) : option (seq string) :=
  matchFrom p true s.

(** ** Exceptions and completions *)

Record js_error := JsError { err_name : string; err_message : string }.

Definition js_error_pair (e : js_error) := (err_name e, err_message e).
Lemma js_error_pairK : cancel js_error_pair (fun x => JsError x.1 x.2).
Proof. by case. Qed.
HB.instance Definition _ := Equality.copy js_error (can_type js_error_pairK).

(** How the evaluation of a piece of code ends: normally with a value, with
    a thrown exception, or by [process.exit(code)], which no [catch] sees. *)
Inductive completion (A : Type) :=
| Normal (a : A)
| Throw (e : js_error)
| Exit (code : nat).
Arguments Normal {A} a.
Arguments Throw {A} e.
Arguments Exit {A} code.

(** Sequencing of code that may throw: the first abrupt completion wins. *)
Definition cbind {A B : Type} (c : completion A) (k : A -> completion B)
    : completion B :=
  match c with
  | Normal a => k a
  | Throw e => Throw e
  | Exit code => Exit code
  end.

Declare Scope completion_scope.
Delimit Scope completion_scope with C.
Notation "x <- c ;; k" := (cbind c (fun x => k))
  (at level 61, c at next level, right associativity) : completion_scope.

(** Reading index [i] of [null]: [m[1]] when the match failed. *)
Definition nullIndexError (i : nat) : js_error :=
  JsError "TypeError"
    ("Cannot read properties of null (reading '" ++ numberToString i ++ "')").

Definition index (m : option (seq string)) (i : nat) : completion string :=
  if m is Some caps then Normal (nth "undefined" caps i.-1)
  else Throw (nullIndexError i).

(** ** Data coming from GitHub and OmniFocus *)

Module GitHub.
(** An element of [results.data] of [octokit.issues.list]: the fields the
    program reads. *)
Record issue := Issue {
  repository_full_name : string;
  issue_number : nat;
  issue_title : string;
  issue_html_url : string }.

(** An element of [results.data.items] of [search.issuesAndPullRequests]. *)
Record pull := Pull {
  html_url : string;
  number : nat;
  title : string }.
End GitHub.

Module OmniFocus.
(** An element of the array [omnifocus.tasksForProject] resolves to. *)
Record task := Task { id : string; name : string }.
End OmniFocus.

(** main.js 63-70: the callback of [results.data.map] for issues. *)
Definition issueTask (iss : GitHub.issue) : potentialTask :=
  let prefix := GitHub.repository_full_name iss ++ "#"
                ++ numberToString (GitHub.issue_number iss) in
  PotentialTask.mk prefix (prefix ++ " " ++ GitHub.issue_title iss)
                   (GitHub.issue_html_url iss).

(** main.js 97-100: [prefix], the identifier extractor for pull requests.
    [m[1]] is evaluated first, so a failed match throws there. *)
Definition prefix (t : GitHub.pull) : completion string :=
  let m := regexMatch html_url_pattern (GitHub.html_url t) in
  (m1 <- index m 1 ;;
   m2 <- index m 2 ;;
   Normal (m1 ++ "/" ++ m2 ++ "#" ++ numberToString (GitHub.number t)))%C.

(** main.js 104-110: the callback of [results.data.items.map] for pull
    requests; [prefix(pr)] is called twice. *)
Definition pullTask (pr : GitHub.pull) : completion potentialTask :=
  (p1 <- prefix pr ;;
   p2 <- prefix pr ;;
   Normal (PotentialTask.mk p1 (p2 ++ " " ++ GitHub.title pr) (GitHub.html_url pr)))%C.

(** [items.map(f)] for a callback that may throw: the first exception ends
    the whole map. *)
Fixpoint mapThrowing {A B : Type} (f : A -> completion B) (s : seq A)
    : completion (seq B) :=
  if s is x :: s' then
    (y <- f x ;; ys <- mapThrowing f s' ;; Normal (y :: ys))%C
  else Normal [::].

(** main.js 75-80 and 115-120: [tasks.map(t => ...)]. *)
Definition toCurrentTask (t : OmniFocus.task) : currentTask :=
  CurrentTask.mk (OmniFocus.id t) (OmniFocus.name t).

(** ** The outside world

    Everything [main] talks to: the file system and the TOML parser used by
    [loadConfig], the GitHub client, and the [./omnifocus] module.  A call's
    answer may depend on when it is made: every answer is indexed by the
    number of events the run has produced before the call. *)

(** A settled promise. *)
Inductive outcome (A : Type) :=
| Resolved (a : A)
| Rejected (e : js_error).
Arguments Resolved {A} a.
Arguments Rejected {A} e.

(** The promise returned by one OmniFocus action, with the moment at which
    it settles; [Promise.all] rejects with the earliest rejection. *)
Record promise := Promise { settledAt : nat; result : outcome unit }.

(** What [toml.parse] returns, as far as [main] reads it: the [github]
    table, absent when the file has none, and in it the two keys, each
    absent ([undefined]) when the table does not set it. *)
Record githubTable := GithubTable {
  api_url : option string;
  auth_token : option string }.

Record config := Config { github : option githubTable }.

(** Reading property [name] of [undefined]: [config.github.api_url] for a
    file without a [github] table. *)
Definition undefinedPropertyError (name : string) : js_error :=
  JsError "TypeError"
    ("Cannot read properties of undefined (reading '" ++ name ++ "')").

(** [config.github.<name>]. *)
Definition githubProperty (config : config) (name : string)
    (field : githubTable -> option string) : completion (option string) :=
  if github config is Some table then Normal (field table)
  else Throw (undefinedPropertyError name).

(** [`${v}`] for a value that is a string or [undefined]. *)
Definition templateValue (v : option string) : string :=
  if v is Some s then s else "undefined".

(** What [toml.parse] throws: the fields [loadConfig] prints. *)
Record tomlError := TomlError { line : nat; column : nat; message : string }.

(** Modelled from the spec: the collaborators of main.js that are not under
    src/ ([./omnifocus], octokit, fs, os, toml).  [tasksForProject] is the
    spec's [listTasks]; [addNewTask] and [markTaskComplete] are the spec's
    [createTask] and [completeTask], asynchronous actions that report
    failure by rejecting the promise they return. *)
Record world := World {
  homedir : string;
  readFileSync : string -> outcome string;
  toml_parse : string -> config + tomlError;
  issues_list : nat -> outcome (seq GitHub.issue);
  users_getAuthenticated : nat -> outcome string;
  search_issuesAndPullRequests : nat -> string -> outcome (seq GitHub.pull);
  tasksForProject : nat -> string -> outcome (seq OmniFocus.task);
  addNewTask : nat -> string -> string -> string -> string -> promise;
  markTaskComplete : nat -> string -> promise }.

Inductive call :=
| ReadFileSync (path : string)
| IssuesList
| UsersGetAuthenticated
| SearchIssuesAndPullRequests (q : string)
| TasksForProject (project : string)
| AddNewTask (project title tag note : string)
| MarkTaskComplete (id : string).

Inductive logged :=
| Text (s : string)
| Err (e : js_error).

Inductive event :=
| Call (c : call)
| ConsoleLog (x : logged)
| ConsoleError (x : logged).

(** The external calls of a trace, in order. *)
Definition calls (tr : seq event) : seq call :=
  pmap (fun ev => if ev is Call c then Some c else None) tr.

(** [Promise.all]: the earliest rejection among the promises, if any. *)
Fixpoint firstRejection (ps : seq promise) : option (nat * js_error) :=
  if ps is p :: ps' then
    match result p, firstRejection ps' with
    | Rejected e, Some (t', e') =>
        if settledAt p <= t' then Some (settledAt p, e) else Some (t', e')
    | Rejected e, None => Some (settledAt p, e)
    | Resolved _, r => r
    end
  else None.

Definition Promise_all (ps : seq promise) : outcome unit :=
  if firstRejection ps is Some (_, e) then Rejected e else Resolved tt.

(** ** The trace monad

    A computation is run at a clock value (the number of events produced so
    far) and returns its completion with the events it produced. *)
Definition M (A : Type) : Type := nat -> completion A * seq event.

Definition ret {A : Type} (a : A) : M A := fun _ => (Normal a, [::]).

Definition bind {A B : Type} (m : M A) (k : A -> M B) : M B :=
  fun clock =>
    let: (c, tr) := m clock in
    match c with
    | Normal a => let: (c', tr') := k a (clock + size tr) in (c', (tr ++ tr')%SEQ)
    | Throw e => (Throw e, tr)
    | Exit code => (Exit code, tr)
    end.

Declare Scope js_scope.
Delimit Scope js_scope with js.
Notation "x <- m ;; k" := (bind m (fun x => k))
  (at level 61, m at next level, right associativity) : js_scope.
Notation "m ;; k" := (bind m (fun _ => k))
  (at level 61, right associativity) : js_scope.

(** [try { body } catch (err) { handler }]: only a thrown exception reaches
    the handler. *)
Definition tryCatch {A : Type} (body : M A) (handler : js_error -> M A) : M A :=
  fun clock =>
    let: (c, tr) := body clock in
    if c is Throw e then
      let: (c', tr') := handler e (clock + size tr) in (c', (tr ++ tr')%SEQ)
    else (c, tr).

Definition emit (ev : event) : M unit := fun _ => (Normal tt, [:: ev]).
Definition console_log (x : logged) : M unit := emit (ConsoleLog x).
Definition console_error (x : logged) : M unit := emit (ConsoleError x).
Definition process_exit {A : Type} (code : nat) : M A := fun _ => (Exit code, [::]).

(** Code without external effects. *)
Definition pure {A : Type} (c : completion A) : M A := fun _ => (c, [::]).

(** [await p] on a settled promise. *)
Definition await {A : Type} (o : outcome A) : M A :=
  pure (match o with Resolved a => Normal a | Rejected e => Throw e end).

(** An external call: it is recorded in the trace, and its answer is the
    world's answer at the current clock. *)
Definition external {A : Type} (c : call) (answer : nat -> A) : M A :=
  fun clock => (Normal (answer clock), [:: Call c]).

(** [array.map(f)] for a callback with effects. *)
Fixpoint mapM {A B : Type} (f : A -> M B) (s : seq A) : M (seq B) :=
  if s is x :: s' then (y <- f x ;; ys <- mapM f s' ;; ret (y :: ys))%js
  else ret [::].

(** ** The program *)

Section Program.

Variable w : world.

Local Open Scope js_scope.

(** main.js 194-216. *)
Definition loadConfig : M config :=
  let configFilePath := homedir w ++ "/.github-to-omnifocus.toml" in
  console_log (Text ("Reading config at " ++ configFilePath ++ "...")) ;;
  tomlConfig <-
    tryCatch
      (r <- external (ReadFileSync configFilePath) (fun _ => readFileSync w configFilePath) ;;
       await r)
      (fun err => console_error (Err err) ;; process_exit 1) ;;
  match toml_parse w tomlConfig with
  | inl config => ret config
  | inr e =>
      console_error
        (Text ("Parsing error on line " ++ numberToString (line e) ++ ", column "
               ++ numberToString (column e) ++ ": " ++ message e)) ;;
      process_exit 1
  end.

(** main.js 140-161. *)
Definition addNewIssues (omnifocusProject ofTag : string)
    (currentTasks : seq currentTask) (issues : seq potentialTask) : M unit :=
  tryCatch
    (addTaskPromises <-
       mapM (fun iss =>
               console_log (Text ("Adding issue: " ++ PotentialTask.prefix iss)) ;;
               external
                 (AddNewTask omnifocusProject (PotentialTask.title iss) ofTag
                             (PotentialTask.body iss))
                 (fun clock =>
                    addNewTask w clock omnifocusProject (PotentialTask.title iss)
                               ofTag (PotentialTask.body iss)))
            (planCreations issues currentTasks) ;;
     console_log (Text ("Waiting for " ++ numberToString (size addTaskPromises)
                        ++ " tasks to be added...")) ;;
     await (Promise_all addTaskPromises))
    (fun err => console_error (Text (err_message err))).

(** main.js 169-192. *)
Definition completeMissingIssues (currentTasks : seq currentTask)
    (issues : seq potentialTask) : M unit :=
  tryCatch
    (removeTaskPromises <-
       mapM (fun t =>
               console_log (Text ("Mark complete: " ++ CurrentTask.title t)) ;;
               external (MarkTaskComplete (CurrentTask.id t))
                        (fun clock => markTaskComplete w clock (CurrentTask.id t)))
            (planRetirements currentTasks issues) ;;
     console_log (Text ("Waiting for " ++ numberToString (size removeTaskPromises)
                        ++ " tasks to be completed...")) ;;
     await (Promise_all removeTaskPromises))
    (fun err => console_log (Err err)).

Definition newTaskTag : string := "github".
Definition omnifocusPrsProject : string := "GitHub PRs".
Definition omnifocusIssuesProject : string := "GitHub Issues".

(** main.js 59-86: the body of the first [try]. *)
Definition issuesBody : M unit :=
  r <- external IssuesList (issues_list w) ;;
  results <- await r ;;
  let issues := [seq issueTask iss | iss <- results] in
  console_log (Text ("Found " ++ numberToString (size issues) ++ " assigned issues.")) ;;
  r <- external (TasksForProject omnifocusIssuesProject)
                (fun clock => tasksForProject w clock omnifocusIssuesProject) ;;
  tasks <- await r ;;
  let tasks := [seq toCurrentTask t | t <- tasks] in
  addNewIssues omnifocusIssuesProject newTaskTag tasks issues ;;
  console_log (Text "Issues added!") ;;
  completeMissingIssues tasks issues ;;
  console_log (Text "Issues removed!").

(** main.js 95-126: the body of the second [try]. *)
Definition prsBody : M unit :=
  r <- external UsersGetAuthenticated (users_getAuthenticated w) ;;
  username <- await r ;;
  let q := "type:pr org:cloudant state:open review-requested:" ++ username in
  r <- external (SearchIssuesAndPullRequests q)
                (fun clock => search_issuesAndPullRequests w clock q) ;;
  results <- await r ;;
  prs <- pure (mapThrowing pullTask results) ;;
  console_log (Text ("Found " ++ numberToString (size prs) ++ " PRs to review.")) ;;
  r <- external (TasksForProject omnifocusPrsProject)
                (fun clock => tasksForProject w clock omnifocusPrsProject) ;;
  tasks <- await r ;;
  let tasks := [seq toCurrentTask t | t <- tasks] in
  addNewIssues omnifocusPrsProject newTaskTag tasks prs ;;
  console_log (Text "PRs added!") ;;
  completeMissingIssues tasks prs ;;
  console_log (Text "PRs removed!").

(** main.js 58-90 and 94-129: each body inside its [try]/[catch]. *)
Definition issuesPass : M unit :=
  tryCatch issuesBody (fun err => console_error (Err err)).

Definition prsPass : M unit :=
  tryCatch prsBody (fun err => console_error (Err err)).

(** main.js 36-130.  Lines 41-42 read [config.github] outside any [try]:
    without a [github] table the first of them throws.  The [Octokit]
    object of lines 49-54 is built from the same two values. *)
Definition main : M unit :=
  config <- loadConfig ;;
  console_log (Text "Config loaded.") ;;
  url <- pure (githubProperty config "api_url" api_url) ;;
  console_log (Text ("Using API server: " ++ templateValue url)) ;;
  token <- pure (githubProperty config "auth_token" auth_token) ;;
  console_log (Text ("Using token: " ++ templateValue token)) ;;
  issuesPass ;;
  prsPass.

End Program.

(** ** The task store after the planned creations

    Modelled from the spec: [createTask] of the local task store
    ([omnifocus.addNewTask], whose module is not under src/).  Each call
    adds one task whose title is the title passed to the call; the store
    chooses the id, here from the number of tasks it already holds. *)
Section Store.

Variable storeId : nat -> string.

Definition createTask (store : seq currentTask) (title : string) : seq currentTask :=
  rcons store (CurrentTask.mk (storeId (size store)) title).

Definition applyCreations (store : seq currentTask) (plan : seq potentialTask)
    : seq currentTask :=
  foldl createTask store [seq PotentialTask.title iss | iss <- plan].

End Store.

(** Titles built as [`${prefix} ${title}`] (main.js 67 and 107). *)
Definition constructedTitle (r : potentialTask) : bool :=
  startsWith (PotentialTask.title r) (PotentialTask.prefix r ++ " ").

(** A path segment as a group [([^c]+)] captures it: not empty, free of [c]. *)
Definition segment (c : ascii) (g : string) : bool :=
  (g != "") && (c \notin list_ascii_of_string g).

(** Where a greedy [[^c]+] has to stop: at the end of the input or before [c]. *)
Definition stopsGroup (c : ascii) (rest : string) : bool :=
  if rest is String d _ then d == c else true.

(** The captures a match of [p] can produce: one segment per group. *)
Fixpoint wellCaptured (p : seq atom) (caps : seq string) : bool :=
  match p with
  | [::] => nilp caps
  | GroupPlusNot c :: p' =>
      if caps is g :: caps' then segment c g && wellCaptured p' caps' else false
  | _ :: p' => wellCaptured p' caps
  end.

(** A pull request whose [html_url] the pattern does not match. *)
Definition malformed (t : GitHub.pull) : bool :=
  ~~ isSome (regexMatch html_url_pattern (GitHub.html_url t)).

(** The URLs the pattern is written for, with any two characters other than
    NUL where the host has its dots. *)
Definition hostedUrl (c1 c2 : ascii) (org repo rest : string) : string :=
  "https://github" ++ String c1 ("ibm" ++ String c2 ("com/" ++ org ++ "/" ++ repo ++ rest)).

(** C5, as the specification words it: the creation plan and the matched
    items are disjoint, neither repeats an entry, and together they hold
    the entries of the remote list. *)
Definition partitionAsSpecified (R : seq potentialTask) (L : seq currentTask)
    : Prop :=
  [/\ forall r, ~ (r \in planCreations R L /\ r \in alreadyPresent R L),
      uniq (planCreations R L),
      uniq (alreadyPresent R L)
    & planCreations R L ++ alreadyPresent R L =i R]%SEQ.

(** A computation that never ends the process. *)
Definition noExit {A : Type} (m : M A) : Prop :=
  forall clock code, (m clock).1 <> Exit code.

(** ** A world to run [main] in *)

Definition badCredentials : js_error := JsError "HttpError" "Bad credentials".
Definition notRunning : js_error := JsError "Error" "OmniFocus is not running".

(** A world in which listing the issues fails, one pull request awaits
    review, the project holds one stale task, and creating a task fails. *)
Definition demoWorld : world :=
  World "/Users/me"
        (fun _ => Resolved "[github]")
        (fun _ => inl (Config (Some (GithubTable (Some "https://api.github.com")
                                                 (Some "secret")))))
        (fun _ => Rejected badCredentials)
        (fun _ => Resolved "octocat")
        (fun _ _ => Resolved [:: GitHub.Pull "https://github.ibm.com/acme/widgets/pull/7"
                                             7 "Speed up"])
        (fun _ _ => Resolved [:: OmniFocus.Task "x1" "acme/widgets#3 Old"])
        (fun _ _ _ _ _ => Promise 5 (Rejected notRunning))
        (fun _ _ => Promise 1 (Resolved tt)).

(** Whether [^] holds right after [pre] under the [m] flag: [pre] is empty
    or ends with a line terminator. *)
Definition startsLine (pre : string) : bool :=
  isLineTerminator (last "010"%char (list_ascii_of_string pre)).

(** A URL without line terminators. *)
Definition singleLine (s : string) : bool :=
  ~~ has isLineTerminator (list_ascii_of_string s).

(** A world whose answers do not change with time: what listing the
    issues, [users.getAuthenticated], the search and [tasksForProject]
    answer, and how every [addNewTask] and every [markTaskComplete] ends. *)
Definition steadyWorld (listed : outcome (seq GitHub.issue)) (user : outcome string)
    (found : outcome (seq GitHub.pull)) (tasks : outcome (seq OmniFocus.task))
    (added completed : outcome unit) : world :=
  World "/Users/me"
        (fun _ => Resolved "[github]")
        (fun _ => inl (Config (Some (GithubTable (Some "https://api.github.com")
                                                 (Some "secret")))))
        (fun _ => listed) (fun _ => user) (fun _ _ => found) (fun _ _ => tasks)
        (fun _ _ _ _ _ => Promise 1 added) (fun _ _ => Promise 1 completed).

(** A world in which every call succeeds: one assigned issue, one pull
    request to review, one stale task in each project. *)
Definition calmWorld : world :=
  steadyWorld
    (Resolved [:: GitHub.Issue "acme/widgets" 12 "Fix bug"
                               "https://github.com/acme/widgets/issues/12"])
    (Resolved "octocat")
    (Resolved [:: GitHub.Pull "https://github.ibm.com/acme/widgets/pull/7" 7 "Speed up"])
    (Resolved [:: OmniFocus.Task "x9" "acme/widgets#9 Old"])
    (Resolved tt) (Resolved tt).



(** * Properties *)

(** ** Strings *)

Lemma startsWithP (s p : string) :
  reflect (exists r, s = p ++ r) (startsWith s p).
Proof.
elim: p s => [|c p IH] [|d s] /=.
- by left; exists "".
- by left; exists (String d s).
- by right; case.
- case: eqP => [->|ne] /=.
  + by apply: (iffP (IH s)) => [[r ->]|[r [->]]]; exists r.
  + by right=> -[r [eq_dc _]]; apply: ne.
Qed.

Lemma startsWith_append (p r : string) : startsWith (p ++ r) p.
Proof. by apply/startsWithP; exists r. Qed.

Lemma append_assoc (a b c : string) : (a ++ b) ++ c = a ++ (b ++ c).
Proof. by elim: a => [|x a /= ->]. Qed.

Lemma startsWith_trans (s p q : string) :
  startsWith s p -> startsWith p q -> startsWith s q.
Proof.
move=> /startsWithP [r ->] /startsWithP [r' ->].
by rewrite append_assoc startsWith_append.
Qed.

(** ** The reconciliation filters *)

Section Engine.

Implicit Types (R : seq potentialTask) (L : seq currentTask).
Implicit Types (r : potentialTask) (l : currentTask).

(** The test of [planCreations], seen from the titles of the tasks alone. *)
Lemma has_titles L (p : string) :
  has (fun e => startsWith (CurrentTask.title e) p) L
  = has (fun t => startsWith t p) [seq CurrentTask.title e | e <- L].
Proof. by rewrite has_map. Qed.

Lemma planCreations_nilP R L :
  reflect (forall r, r \in R ->
             has (fun e => startsWith (CurrentTask.title e) (PotentialTask.prefix r)) L)
          (planCreations R L == [::]).
Proof.
rewrite /planCreations -[_ == _]negbK -has_filter -all_predC.
apply: (iffP allP) => H r /H /=; first by move/negPn.
by move=> ->.
Qed.

(** C1. [planCreations] keeps exactly the remote items for which no local
    task has a title starting with the item's prefix, and it keeps them in
    the order of the remote list. *)
Theorem planCreations_spec R L :
  (forall r, r \in planCreations R L <->
     r \in R /\
     ~ exists l, l \in L /\ startsWith (CurrentTask.title l) (PotentialTask.prefix r))
  /\ subseq (planCreations R L) R.
Proof.
split; last exact: filter_subseq.
move=> r; rewrite mem_filter andbC; split.
- case/andP=> r_in /hasPn no_match; split=> // -[l [l_in]].
  by apply/negP; apply: no_match.
- case=> r_in no_match; rewrite r_in /=.
  by apply/hasPn=> l l_in; apply/negP=> ok; apply: no_match; exists l.
Qed.

(** C2. [planRetirements] keeps exactly the local tasks whose title starts
    with no remote prefix; with no remote item every local task is kept. *)
Theorem planRetirements_spec L R :
  (forall l, l \in planRetirements L R <->
     l \in L /\
     ~ exists r, r \in R /\ startsWith (CurrentTask.title l) (PotentialTask.prefix r))
  /\ planRetirements L [::] = L.
Proof.
split; last by rewrite /planRetirements /= filter_predT.
move=> l; rewrite mem_filter andbC has_map; split.
- case/andP=> l_in /hasPn no_match; split=> // -[r [r_in]].
  by apply/negP; apply: no_match.
- case=> l_in no_match; rewrite l_in /=.
  by apply/hasPn=> r r_in; apply/negP=> ok; apply: no_match; exists r.
Qed.

(** C6. The four boundary identities: an empty list on either side.  Both
    filters are total functions, so no input makes them throw. *)
Theorem empty_input_boundaries R L :
  [/\ planCreations [::] L = [::],
      planCreations R [::] = R,
      planRetirements [::] R = [::]
    & planRetirements L [::] = L].
Proof.
split=> //; first by rewrite /planCreations /= filter_predT.
by rewrite /planRetirements /= filter_predT.
Qed.

End Engine.

Section Partition.

Implicit Types (R : seq potentialTask) (L : seq currentTask).

(** The remote items of a pass are distinct (one per issue or pull
    request); the condition matters, since a list that repeated an item
    would have it twice in the plan. *)
Lemma partition_repeated_entry :
  let r := PotentialTask.mk "acme/widgets#12" "acme/widgets#12 Fix bug"
                            "https://github.com/acme/widgets/issues/12" in
  ~ partitionAsSpecified [:: r; r] [::].
Proof. by move=> r [_ dup _ _]; move: dup; vm_compute. Qed.

(** C5. For remote items that are distinct, the creation plan and the
    matched items are disjoint, neither repeats an entry, and their union
    is the remote list: every remote item is in exactly one of the two. *)
Theorem planCreations_partition R L :
  uniq R ->
  partitionAsSpecified R L
  /\ (forall r, r \in R ->
        (r \in planCreations R L) (+) (r \in alreadyPresent R L)).
Proof.
move=> uniqR; split; first split.
- by move=> r []; rewrite !mem_filter => /andP [/negbTE ->].
- exact: filter_uniq.
- exact: filter_uniq.
- by move=> r; rewrite mem_cat !mem_filter -andb_orl orNb.
- by move=> r r_in; rewrite !mem_filter r_in !andbT addNb addbb.
Qed.

(** C5, an instance: two distinct remote items, one of them matched. *)
Lemma planCreations_partition_witness :
  let r1 := PotentialTask.mk "acme/widgets#12" "acme/widgets#12 Fix bug" "u12" in
  let r2 := PotentialTask.mk "acme/widgets#13" "acme/widgets#13 Add test" "u13" in
  let L := [:: CurrentTask.mk "x1" "acme/widgets#12 Fix bug"] in
  uniq [:: r1; r2] /\ partitionAsSpecified [:: r1; r2] L.
Proof.
move=> r1 r2 L.
have distinct : uniq [:: r1; r2] by vm_compute.
split; first exact: distinct.
exact: (proj1 (@planCreations_partition [:: r1; r2] L distinct)).
Defined.

End Partition.

(** ** Applying the creation plan *)

Section Idempotence.

Variable storeId : nat -> string.

Implicit Types (R plan : seq potentialTask) (L : seq currentTask).

Lemma titles_applyCreations L plan :
  [seq CurrentTask.title e | e <- applyCreations storeId L plan]
  = ([seq CurrentTask.title e | e <- L] ++ [seq PotentialTask.title r | r <- plan])%SEQ.
Proof.
rewrite /applyCreations; elim: plan L => [|r plan IH] L /=; first by rewrite cats0.
by rewrite IH /createTask map_rcons cat_rcons.
Qed.

Lemma constructedTitle_startsWith (r : potentialTask) :
  constructedTitle r -> startsWith (PotentialTask.title r) (PotentialTask.prefix r).
Proof. by move=> H; apply: startsWith_trans H (startsWith_append _ _). Qed.

(** C4. Once the planned creations are applied, each new task carrying the
    title of its remote item, planning again against the same remote list
    creates nothing. *)
Theorem creation_idempotent R L :
  all constructedTitle R ->
  planCreations R (applyCreations storeId L (planCreations R L)) = [::].
Proof.
move=> /allP titles; apply/eqP/planCreations_nilP => r r_in.
rewrite has_titles titles_applyCreations has_cat -has_titles.
case matched: (has _ L) => //=.
apply/hasP; exists (PotentialTask.title r).
- by apply: map_f; rewrite mem_filter matched.
- exact/constructedTitle_startsWith/titles.
Qed.

End Idempotence.

(** C4, an instance: two issues, of which one already has its task. *)
Lemma creation_idempotent_witness :
  let R := [:: issueTask (GitHub.Issue "acme/widgets" 12 "Fix bug" "u12");
               issueTask (GitHub.Issue "acme/widgets" 13 "Add test" "u13")] in
  let L := [:: CurrentTask.mk "x1" "acme/widgets#12 Fix bug"] in
  all constructedTitle R /\
  planCreations R (applyCreations numberToString L (planCreations R L)) = [::].
Proof.
move=> R L; split; first by vm_compute.
by apply: creation_idempotent; vm_compute.
Defined.

(** ** The tasks built from GitHub data *)

Lemma prefix_twice (pr : GitHub.pull) (t : potentialTask) :
  pullTask pr = Normal t ->
  exists2 p, prefix pr = Normal p
           & t = PotentialTask.mk p (p ++ " " ++ GitHub.title pr) (GitHub.html_url pr).
Proof. by rewrite /pullTask; case: (prefix pr) => //= p [<-]; exists p. Qed.

(** C9. Every task built from a fetched issue or pull request has the title
    made of its prefix, one space and the title of the remote item; so its
    title starts with its prefix. *)
Theorem constructed_title_invariant :
  (forall iss : GitHub.issue,
     let t := issueTask iss in
     PotentialTask.title t = PotentialTask.prefix t ++ " " ++ GitHub.issue_title iss
     /\ startsWith (PotentialTask.title t) (PotentialTask.prefix t))
  /\
  (forall (pr : GitHub.pull) (t : potentialTask),
     pullTask pr = Normal t ->
     PotentialTask.title t = PotentialTask.prefix t ++ " " ++ GitHub.title pr
     /\ startsWith (PotentialTask.title t) (PotentialTask.prefix t)).
Proof.
split=> [iss|pr t /prefix_twice [p _ ->]] /=; split=> //; exact: startsWith_append.
Qed.

(** C9, an instance: the task built from a pull request on github.ibm.com. *)
Lemma constructed_title_invariant_witness :
  let pr := GitHub.Pull "https://github.ibm.com/acme/widgets/pull/7" 7 "Speed up" in
  let t := PotentialTask.mk "acme/widgets#7" "acme/widgets#7 Speed up"
                            "https://github.ibm.com/acme/widgets/pull/7" in
  pullTask pr = Normal t /\
  PotentialTask.title t = PotentialTask.prefix t ++ " " ++ GitHub.title pr /\
  startsWith (PotentialTask.title t) (PotentialTask.prefix t).
Proof.
move=> pr t; split; first by vm_compute.
by apply: (proj2 constructed_title_invariant pr t); vm_compute.
Defined.

(** ** The regular expression *)

Section Regex.

Implicit Types (p : seq atom) (s g rest : string) (c d : ascii).

Lemma matchHere_group_cons c p d s :
  matchHere (GroupPlusNot c :: p) (String d s)
  = if d == c then None
    else match matchHere (GroupPlusNot c :: p) s with
         | Some (g :: caps) => Some (String d g :: caps)
         | _ => if matchHere p s is Some caps
                then Some (String d "" :: caps) else None
         end.
Proof. by []. Qed.

Lemma matchHere_literal (lit : string) p s :
  matchHere (literal lit ++ p) (lit ++ s) = matchHere p s.
Proof. by elim: lit => [|c lit IH] //=; rewrite eqxx. Qed.

Lemma matchHere_Chr c p s : matchHere (Chr c :: p) (String c s) = matchHere p s.
Proof. by rewrite /= eqxx. Qed.

Lemma matchHere_NotChr c p d s :
  d != c -> matchHere (NotChr c :: p) (String d s) = matchHere p s.
Proof. by move=> /= ->. Qed.

Lemma matchHere_stopped c p rest :
  stopsGroup c rest -> matchHere (GroupPlusNot c :: p) rest = None.
Proof. by case: rest => [|d rest] //= ->. Qed.

(** A greedy group takes the whole run of characters other than [c] when
    the rest of the pattern matches after it. *)
Lemma matchHere_greedy c p g rest caps :
  segment c g -> stopsGroup c rest -> matchHere p rest = Some caps ->
  matchHere (GroupPlusNot c :: p) (g ++ rest) = Some (g :: caps).
Proof.
move=> + stop ok; elim: g => [|d g IH] // seg.
have /andP [c_d c_g] : (c != d) && (c \notin list_ascii_of_string g).
  by move: seg; rewrite /segment /= inE negb_or.
rewrite -[String d g ++ rest]/(String d (g ++ rest)) matchHere_group_cons.
rewrite eq_sym (negbTE c_d).
case: g IH c_g {seg} => [|d' g] IH c_g; last by rewrite IH.
by rewrite -["" ++ rest]/rest matchHere_stopped // ok.
Qed.

Lemma matchHere_captures p s caps :
  matchHere p s = Some caps -> wellCaptured p caps.
Proof.
elim: p s caps => [|[c|c|c] p IH] s caps /=; first by case=> <-.
- by case: s => // d s; case: ifP => // _ /IH.
- by case: s => // d s; case: ifP => // _ /IH.
- rewrite -/(matchHere (GroupPlusNot c :: p)).
  elim: s caps => [|d s IHs] caps //; rewrite matchHere_group_cons.
  case: ifP => // /negbT d_c.
  have seg0 : segment c (String d "") by rewrite /segment /= inE eq_sym.
  case more: (matchHere (GroupPlusNot c :: p) s) => [[|g caps']|].
  + by case rest: (matchHere p s) => [caps'|] // [<-]; rewrite seg0 (IH _ _ rest).
  + case=> <-; move/IHs: more => /= /andP [/andP [_ c_g] ->].
    by rewrite /segment /= inE negb_or eq_sym d_c c_g.
  + by case rest: (matchHere p s) => [caps'|] // [<-]; rewrite seg0 (IH _ _ rest).
Qed.

Lemma matchFrom_here p s caps :
  matchHere p s = Some caps -> matchFrom p true s = Some caps.
Proof. by case: s => [|c s] /= ->. Qed.

Lemma matchFrom_captures p b s caps :
  matchFrom p b s = Some caps -> wellCaptured p caps.
Proof.
elim: s b => [|c s IH] [] /=.
- by case here: (matchHere p "") => [caps'|] // [<-]; apply: matchHere_captures here.
- by [].
- case here: (matchHere p (String c s)) => [caps'|]; last exact: IH.
  by case=> <-; apply: matchHere_captures here.
- exact: IH.
Qed.

Lemma regexMatch_hostedUrl c1 c2 org repo rest :
  c1 != NUL -> c2 != NUL ->
  segment "/" org -> segment "/" repo -> stopsGroup "/" rest ->
  regexMatch html_url_pattern (hostedUrl c1 c2 org repo rest) = Some [:: org; repo].
Proof.
move=> c1_ok c2_ok org_ok repo_ok rest_ok; apply: matchFrom_here.
rewrite /html_url_pattern /hostedUrl matchHere_literal cat1s matchHere_NotChr //.
rewrite matchHere_literal cat1s matchHere_NotChr // matchHere_literal.
apply: matchHere_greedy => //.
rewrite -["/" ++ repo ++ rest]/(String "/" (repo ++ rest)) matchHere_Chr.
exact: (@matchHere_greedy _ [::]).
Qed.

Lemma prefix_matched (t : GitHub.pull) (caps : seq string) :
  regexMatch html_url_pattern (GitHub.html_url t) = Some caps ->
  exists org repo,
    [/\ caps = [:: org; repo], segment "/" org, segment "/" repo
      & prefix t = Normal (org ++ "/" ++ repo ++ "#" ++ numberToString (GitHub.number t))].
Proof.
move=> m; rewrite /prefix m; move/matchFrom_captures: m.
rewrite /html_url_pattern /=.
case: caps => [|org [|repo [|? ?]]] //=; rewrite ?andbF // andbT => /andP [? ?].
by exists org, repo.
Qed.

Lemma prefix_unmatched (t : GitHub.pull) :
  regexMatch html_url_pattern (GitHub.html_url t) = None ->
  prefix t = Throw (nullIndexError 1).
Proof. by rewrite /prefix => ->. Qed.

Lemma pullTask_malformed (t : GitHub.pull) :
  malformed t -> pullTask t = Throw (nullIndexError 1).
Proof.
rewrite /malformed /pullTask.
by case m: (regexMatch _ _) => // _; rewrite prefix_unmatched.
Qed.

Lemma pullTask_wellformed (t : GitHub.pull) :
  ~~ malformed t -> exists y, pullTask t = Normal y.
Proof.
rewrite /malformed negbK /pullTask.
case m: (regexMatch _ _) => [caps|] // _.
by case: (prefix_matched m) => org [repo [_ _ _ ->]] /=; eexists.
Qed.

(** One malformed pull request makes the whole [map] throw. *)
Lemma mapThrowing_malformed (items : seq GitHub.pull) :
  has malformed items -> mapThrowing pullTask items = Throw (nullIndexError 1).
Proof.
elim: items => [|t items IH] //=.
case bad: (malformed t) => /=; first by rewrite pullTask_malformed.
by move=> /IH ->; case: (pullTask_wellformed (negbT bad)) => y ->.
Qed.

End Regex.

(** ** The trace monad *)

Section Traces.

Variables A B : Type.

Lemma bind_Normal (m : M A) (k : A -> M B) clock (a : A) (tr : seq event) :
  m clock = (Normal a, tr) ->
  bind m k clock
  = ((k a (clock + size tr)).1, (tr ++ (k a (clock + size tr)).2)%SEQ).
Proof. by rewrite /bind => ->; case: (k _ _). Qed.

Lemma bind_Throw (m : M A) (k : A -> M B) clock (e : js_error) (tr : seq event) :
  m clock = (Throw e, tr) -> bind m k clock = (Throw e, tr).
Proof. by rewrite /bind => ->. Qed.

Lemma bind_external (c : call) (answer : nat -> A) (k : A -> M B) clock :
  (x <- external c answer ;; k x)%js clock
  = ((k (answer clock) (clock + 1)).1, Call c :: (k (answer clock) (clock + 1)).2).
Proof. by rewrite /bind /external /=; case: (k _ _). Qed.

Lemma bind_emit (ev : event) (k : M B) clock :
  (emit ev ;; k)%js clock = ((k (clock + 1)).1, ev :: (k (clock + 1)).2).
Proof. by rewrite /bind /emit /=; case: (k _). Qed.

Lemma bind_pure_Normal (a : A) (k : A -> M B) clock :
  (x <- pure (Normal a) ;; k x)%js clock = k a clock.
Proof. by rewrite /bind /pure /= addn0; case: (k _ _). Qed.

Lemma bind_pure_Throw (e : js_error) (k : A -> M B) clock :
  (x <- pure (Throw e) ;; k x)%js clock = (Throw e, [::]).
Proof. by []. Qed.

Lemma calls_cat (tr1 tr2 : seq event) : calls (tr1 ++ tr2) = (calls tr1 ++ calls tr2)%SEQ.
Proof. exact: pmap_cat. Qed.

End Traces.

Section Batch.

Variables A B : Type.

(** A batch of actions: the callback logs a line and issues one external
    call whose answer (a promise) it returns.  The whole batch is issued,
    whatever the answers are. *)
Lemma mapM_batch (logOf : A -> logged) (callOf : A -> call)
    (answer : A -> nat -> B) (s : seq A) clock :
  exists2 ps : seq B,
    size ps = size s
    & mapM (fun x => console_log (logOf x) ;; external (callOf x) (answer x))%js s clock
      = (Normal ps, flatten [seq [:: ConsoleLog (logOf x); Call (callOf x)] | x <- s]).
Proof.
pose f x := (console_log (logOf x) ;; external (callOf x) (answer x))%js.
rewrite -/f; elim: s clock => [|x s IH] clock /=; first by exists [::].
case: (IH (clock + 2)) => ps size_ps run_s.
exists (answer x (clock + 1) :: ps); first by rewrite /= size_ps.
have run_x : f x clock
    = (Normal (answer x (clock + 1)), [:: ConsoleLog (logOf x); Call (callOf x)]).
  by [].
by rewrite (bind_Normal _ run_x) /= (bind_Normal _ run_s) /ret /= cats0.
Qed.

Lemma calls_batch (logOf : A -> logged) (callOf : A -> call) (s : seq A) :
  calls (flatten [seq [:: ConsoleLog (logOf x); Call (callOf x)] | x <- s])
  = [seq callOf x | x <- s].
Proof. by elim: s => [|x s IH] //=; rewrite -IH. Qed.

End Batch.

Section NoExit.

Variables A B : Type.

Lemma noExit_ret (a : A) : noExit (ret a).
Proof. by []. Qed.

Lemma noExit_emit (ev : event) : noExit (emit ev).
Proof. by []. Qed.

Lemma noExit_external (c : call) (answer : nat -> A) : noExit (external c answer).
Proof. by []. Qed.

Lemma noExit_await (o : outcome A) : noExit (await o).
Proof. by case: o. Qed.

Lemma noExit_bind (m : M A) (k : A -> M B) :
  noExit m -> (forall a, noExit (k a)) -> noExit (bind m k).
Proof.
move=> Hm Hk clock code; rewrite /bind; move: (Hm clock).
case: (m clock) => [[a|e|code'] tr] /= H.
- by move: (Hk a (clock + size tr) code); case: (k a _).
- by [].
- by case: (H code').
Qed.

Lemma noExit_tryCatch (body : M A) (handler : js_error -> M A) :
  noExit body -> (forall e, noExit (handler e)) -> noExit (tryCatch body handler).
Proof.
move=> Hb Hh clock code; rewrite /tryCatch; move: (Hb clock).
case: (body clock) => [[a|e|code'] tr] /= H.
- by [].
- by move: (Hh e (clock + size tr) code); case: (handler e _).
- by case: (H code').
Qed.

End NoExit.

Lemma noExit_mapM (A B : Type) (f : A -> M B) (s : seq A) :
  (forall x, noExit (f x)) -> noExit (mapM f s).
Proof.
move=> Hf; elim: s => [|x s IH] //=.
by apply: noExit_bind => // y; apply: noExit_bind.
Qed.


Lemma noExit_console_log (x : logged) : noExit (console_log x).
Proof. by []. Qed.

Lemma noExit_console_error (x : logged) : noExit (console_error x).
Proof. by []. Qed.

Lemma noExit_pure (A : Type) (c : completion A) :
  (forall code, c <> Exit code) -> noExit (pure c).
Proof. by move=> H clock code; apply: H. Qed.

Ltac noexit :=
  repeat first
    [ exact: noExit_ret | exact: noExit_console_log | exact: noExit_console_error
    | exact: noExit_external | exact: noExit_await
    | apply: noExit_bind | apply: noExit_tryCatch | apply: noExit_mapM
    | match goal with |- forall _, noExit _ => move=> ? /= end ].

(** ** The batches of OmniFocus actions *)

Section Actions.

Variable w : world.

Implicit Types (currentTasks : seq currentTask) (issues : seq potentialTask).

Lemma noExit_addNewIssues project tag currentTasks issues :
  noExit (addNewIssues w project tag currentTasks issues).
Proof. by rewrite /addNewIssues; noexit. Qed.

Lemma noExit_completeMissingIssues currentTasks issues :
  noExit (completeMissingIssues w currentTasks issues).
Proof. by rewrite /completeMissingIssues; noexit. Qed.

(** What [addNewIssues] does: one log line and one call per planned item,
    the "Waiting" line, and one error line if some promise is rejected. *)
Lemma addNewIssues_run project tag currentTasks issues clock :
  let plan := planCreations issues currentTasks in
  exists2 ps : seq promise, size ps = size plan &
    addNewIssues w project tag currentTasks issues clock
    = (Normal tt,
       flatten [seq [:: ConsoleLog (Text ("Adding issue: " ++ PotentialTask.prefix iss));
                        Call (AddNewTask project (PotentialTask.title iss) tag
                                         (PotentialTask.body iss))]
               | iss <- plan]
       ++ ConsoleLog (Text ("Waiting for " ++ numberToString (size plan)
                            ++ " tasks to be added..."))
       :: (if Promise_all ps is Rejected e
           then [:: ConsoleError (Text (err_message e))] else [::]))%SEQ.
Proof.
move=> plan; rewrite /addNewIssues -/plan.
have [ps size_ps run] :=
  mapM_batch
    (fun iss => Text ("Adding issue: " ++ PotentialTask.prefix iss))
    (fun iss => AddNewTask project (PotentialTask.title iss) tag (PotentialTask.body iss))
    (fun iss clock => addNewTask w clock project (PotentialTask.title iss) tag
                                 (PotentialTask.body iss))
    plan clock.
exists ps => //; rewrite /tryCatch (bind_Normal _ run) bind_emit size_ps /await /pure /=.
by case: (Promise_all ps) => [[]|e] /=; rewrite ?cats0 // -catA.
Qed.

Lemma completeMissingIssues_run currentTasks issues clock :
  let plan := planRetirements currentTasks issues in
  exists2 ps : seq promise, size ps = size plan &
    completeMissingIssues w currentTasks issues clock
    = (Normal tt,
       flatten [seq [:: ConsoleLog (Text ("Mark complete: " ++ CurrentTask.title t));
                        Call (MarkTaskComplete (CurrentTask.id t))]
               | t <- plan]
       ++ ConsoleLog (Text ("Waiting for " ++ numberToString (size plan)
                            ++ " tasks to be completed..."))
       :: (if Promise_all ps is Rejected e then [:: ConsoleLog (Err e)] else [::]))%SEQ.
Proof.
move=> plan; rewrite /completeMissingIssues -/plan.
have [ps size_ps run] :=
  mapM_batch
    (fun t => Text ("Mark complete: " ++ CurrentTask.title t))
    (fun t => MarkTaskComplete (CurrentTask.id t))
    (fun t clock => markTaskComplete w clock (CurrentTask.id t))
    plan clock.
exists ps => //; rewrite /tryCatch (bind_Normal _ run) bind_emit size_ps /await /pure /=.
by case: (Promise_all ps) => [[]|e] /=; rewrite ?cats0 // -catA.
Qed.

(** C7. Whatever the outcome of each action is, [addNewIssues] issues one
    [addNewTask] per planned creation and [completeMissingIssues] one
    [markTaskComplete] per planned retirement, in the order of the plan and
    once each; a rejected action ends neither batch and is not issued
    again. *)
Theorem action_failure_isolation project tag currentTasks issues clock :
  let created := addNewIssues w project tag currentTasks issues clock in
  let retired := completeMissingIssues w currentTasks issues clock in
  [/\ created.1 = Normal tt,
      calls created.2
      = [seq AddNewTask project (PotentialTask.title iss) tag (PotentialTask.body iss)
        | iss <- planCreations issues currentTasks],
      retired.1 = Normal tt
    & calls retired.2
      = [seq MarkTaskComplete (CurrentTask.id t)
        | t <- planRetirements currentTasks issues]].
Proof.
case: (addNewIssues_run project tag currentTasks issues clock) => ps _ ->.
case: (completeMissingIssues_run currentTasks issues clock) => qs _ -> /=.
split=> //; rewrite calls_cat calls_batch /=.
- by case: (Promise_all ps) => [[]|e] /=; rewrite cats0.
- by case: (Promise_all qs) => [[]|e] /=; rewrite cats0.
Qed.

End Actions.

(** ** The two passes of [main] *)

Lemma mapThrowing_wellformed (items : seq GitHub.pull) :
  ~~ has malformed items -> exists prs, mapThrowing pullTask items = Normal prs.
Proof.
elim: items => [|t items IH] /=; first by exists [::].
rewrite negb_or => /andP [/pullTask_wellformed [y ->] /IH [prs ->]] /=.
by exists (y :: prs).
Qed.

Lemma mapThrowing_pullTask_noExit (items : seq GitHub.pull) (code : nat) :
  mapThrowing pullTask items <> Exit code.
Proof.
case bad: (has malformed items); first by rewrite mapThrowing_malformed.
by case: (mapThrowing_wellformed (negbT bad)) => prs ->.
Qed.

(** A [try] whose [catch] logs the error: the pass ends normally, with the
    error as last event when the body throws. *)
Lemma pass_run (body : M unit) (clock : nat) :
  noExit body ->
  tryCatch body (fun err => console_error (Err err)) clock
  = (Normal tt,
     ((body clock).2
      ++ (if (body clock).1 is Throw e then [:: ConsoleError (Err e)] else [::]))%SEQ).
Proof.
move=> /(_ clock); rewrite /tryCatch.
case: (body clock) => [[[]|e|code] tr] /= H; rewrite ?cats0 //.
by case: (H code).
Qed.

Section Passes.

Variable w : world.

Lemma noExit_issuesBody : noExit (issuesBody w).
Proof.
by rewrite /issuesBody; noexit.
Qed.

Lemma noExit_prsBody : noExit (prsBody w).
Proof.
rewrite /prsBody; noexit.
by apply: noExit_pure => code; apply: mapThrowing_pullTask_noExit.
Qed.

Lemma issuesBody_first clock :
  exists tr, (issuesBody w clock).2 = Call IssuesList :: tr.
Proof. by rewrite /issuesBody bind_external /=; eexists. Qed.

Lemma prsBody_first clock :
  exists tr, (prsBody w clock).2 = Call UsersGetAuthenticated :: tr.
Proof. by rewrite /prsBody bind_external /=; eexists. Qed.

Lemma issuesPass_run clock :
  exists ev,
    issuesPass w clock = (Normal tt, Call IssuesList :: ev)
    /\ forall e tr, issuesBody w clock = (Throw e, tr) ->
         Call IssuesList :: ev = rcons tr (ConsoleError (Err e)).
Proof.
rewrite /issuesPass (pass_run _ noExit_issuesBody).
case: (issuesBody_first clock); case: (issuesBody w clock) => c tr1 /= tr0 ->.
eexists; split; first by rewrite cat_cons.
by move=> e tr [-> <-]; rewrite -cats1.
Qed.

Lemma prsPass_run clock :
  exists ev,
    prsPass w clock = (Normal tt, Call UsersGetAuthenticated :: ev)
    /\ forall e tr, prsBody w clock = (Throw e, tr) ->
         Call UsersGetAuthenticated :: ev = rcons tr (ConsoleError (Err e)).
Proof.
rewrite /prsPass (pass_run _ noExit_prsBody).
case: (prsBody_first clock); case: (prsBody w clock) => c tr1 /= tr0 ->.
eexists; split; first by rewrite cat_cons.
by move=> e tr [-> <-]; rewrite -cats1.
Qed.

(** C8. Once the configuration is loaded and holds its [github] table,
    [main] runs the issues pass and then the pull-request pass, whatever
    fails inside either; each pass ends normally, and when its body throws,
    the error is the last thing the pass logs. *)
Theorem category_isolation (clock : nat) (cfg : config) (table : githubTable)
    (trc : seq event) :
  loadConfig w clock = (Normal cfg, trc) ->
  github cfg = Some table ->
  exists evI evP : seq event,
    let clockI := clock + size trc + 3 in
    let clockP := clockI + size (Call IssuesList :: evI) in
    [/\ main w clock
        = (Normal tt,
           trc ++ [:: ConsoleLog (Text "Config loaded.");
                      ConsoleLog (Text ("Using API server: "
                                        ++ templateValue (api_url table)));
                      ConsoleLog (Text ("Using token: "
                                        ++ templateValue (auth_token table)))]
               ++ Call IssuesList :: evI ++ Call UsersGetAuthenticated :: evP)%SEQ,
        issuesPass w clockI = (Normal tt, Call IssuesList :: evI),
        prsPass w clockP = (Normal tt, Call UsersGetAuthenticated :: evP),
        forall e tr, issuesBody w clockI = (Throw e, tr) ->
          Call IssuesList :: evI = rcons tr (ConsoleError (Err e))
      & forall e tr, prsBody w clockP = (Throw e, tr) ->
          Call UsersGetAuthenticated :: evP = rcons tr (ConsoleError (Err e))].
Proof.
move=> loaded hasTable.
case: (issuesPass_run (clock + size trc + 3)) => evI [runI logI].
case: (prsPass_run (clock + size trc + 3 + size (Call IssuesList :: evI)))
  => evP [runP logP].
exists evI, evP; split=> //.
rewrite /main (bind_Normal _ loaded) /console_log bind_emit.
rewrite /githubProperty hasTable !(bind_pure_Normal, bind_emit) /=.
have -> : clock + size trc + 1 + 1 + 1 = clock + size trc + 3 by rewrite -!addnA.
by rewrite (bind_Normal _ runI) runP.
Qed.

End Passes.

(** ** The identifier extractor for pull requests *)

Lemma await_Resolved (A : Type) (a : A) : await (Resolved a) = pure (Normal a).
Proof. by []. Qed.

(** X15. A malformed pull request in the search result ends the
    pull-request pass before any OmniFocus call: the error reaches the
    [catch] of the pass and is logged there. *)
Lemma prsPass_malformed (w : world) (clock : nat) (username : string)
    (items : seq GitHub.pull) :
  let q := "type:pr org:cloudant state:open review-requested:" ++ username in
  users_getAuthenticated w clock = Resolved username ->
  search_issuesAndPullRequests w (clock + 1) q = Resolved items ->
  has malformed items ->
  prsPass w clock
  = (Normal tt, [:: Call UsersGetAuthenticated; Call (SearchIssuesAndPullRequests q);
                    ConsoleError (Err (nullIndexError 1))]).
Proof.
move=> q auth found bad.
rewrite /prsPass /tryCatch /prsBody bind_external auth await_Resolved.
rewrite bind_pure_Normal bind_external found await_Resolved bind_pure_Normal.
by rewrite (mapThrowing_malformed bad) bind_pure_Throw.
Qed.

(** C3, counterexample. A URL on another host: the pattern does not match
    and the extractor throws, but what it throws is the TypeError of
    reading [m[1]] on [null]; no MalformedReferenceError exists. *)
Lemma prefix_throws_TypeError :
  let t := GitHub.Pull "https://github.com/acme/widgets/pull/7" 7 "Speed up" in
  regexMatch html_url_pattern (GitHub.html_url t) = None /\
  ~ exists e, prefix t = Throw e /\ err_name e = "MalformedReferenceError".
Proof. by split=> // -[e []]; vm_compute => -[<-]. Qed.

(** C3, amended. When the pattern does not match the URL, the extractor
    throws a TypeError, and so does the [map] over any list holding that
    pull request: the item is not skipped.  When the pattern matches, the
    extractor returns the two captured segments and the number as
    ["<org>/<repo>#<number>"]; a URL on github.ibm.com is matched, with its
    first two path segments as captures. *)
Theorem prefix_spec :
  [/\ forall t : GitHub.pull,
        regexMatch html_url_pattern (GitHub.html_url t) = None ->
        [/\ prefix t = Throw (nullIndexError 1),
            err_name (nullIndexError 1) = "TypeError"
          & forall before after : seq GitHub.pull,
              mapThrowing pullTask (before ++ t :: after) = Throw (nullIndexError 1)],
      forall (t : GitHub.pull) (caps : seq string),
        regexMatch html_url_pattern (GitHub.html_url t) = Some caps ->
        exists org repo,
          [/\ caps = [:: org; repo], segment "/" org, segment "/" repo
            & prefix t
              = Normal (org ++ "/" ++ repo ++ "#" ++ numberToString (GitHub.number t))]
    & forall (org repo rest title : string) (n : nat),
        segment "/" org -> segment "/" repo -> stopsGroup "/" rest ->
        prefix (GitHub.Pull (hostedUrl "." "." org repo rest) n title)
        = Normal (org ++ "/" ++ repo ++ "#" ++ numberToString n)].
Proof.
split.
- move=> t unmatched; split=> //; first exact: prefix_unmatched.
  move=> before after; apply: mapThrowing_malformed.
  by rewrite has_cat /= /malformed unmatched orbT.
- exact: prefix_matched.
- move=> org repo rest title n org_ok repo_ok rest_ok.
  have m := @regexMatch_hostedUrl "." "." org repo rest isT isT org_ok repo_ok rest_ok.
  by rewrite /prefix /= m.
Qed.

(** C3, an instance: a URL on github.com is rejected, one on github.ibm.com
    is accepted, and a list holding the first makes the [map] throw. *)
Lemma prefix_spec_witness :
  let bad := GitHub.Pull "https://github.com/acme/widgets/pull/7" 7 "Speed up" in
  let good :=
    GitHub.Pull (hostedUrl "." "." "acme" "widgets" "/pull/8") 8 "Fix typo" in
  [/\ regexMatch html_url_pattern (GitHub.html_url bad) = None,
      prefix bad = Throw (nullIndexError 1),
      mapThrowing pullTask [:: good; bad; good] = Throw (nullIndexError 1),
      regexMatch html_url_pattern (GitHub.html_url good) = Some [:: "acme"; "widgets"]
    & prefix good = Normal "acme/widgets#8"]
  /\ exists org repo,
       [/\ [:: "acme"; "widgets"] = [:: org; repo], segment "/" org, segment "/" repo
         & prefix good = Normal (org ++ "/" ++ repo ++ "#" ++ numberToString 8)].
Proof.
move=> bad good.
have unmatched : regexMatch html_url_pattern (GitHub.html_url bad) = None.
  by vm_compute.
have matched :
    regexMatch html_url_pattern (GitHub.html_url good) = Some [:: "acme"; "widgets"].
  by vm_compute.
case: prefix_spec => onBad onGood onHosted.
case: (onBad bad unmatched) => thrown _ propagated.
split; last exact: (onGood good _ matched).
split.
- exact: unmatched.
- exact: thrown.
- exact: (propagated [:: good] [:: good]).
- exact: matched.
- by apply: (onHosted "acme" "widgets" "/pull/8" "Fix typo" 8); vm_compute.
Defined.

(** C10. The host of the URL need not be github.ibm.com: with any character
    other than NUL in the place of each dot the pattern still matches and
    an identifier is returned; [https://githubXibmYcom/...] is such a
    URL. *)
Theorem host_pattern_leniency :
  (forall (c1 c2 : ascii) (org repo rest title : string) (n : nat),
     c1 != NUL -> c2 != NUL ->
     segment "/" org -> segment "/" repo -> stopsGroup "/" rest ->
     let url := hostedUrl c1 c2 org repo rest in
     regexMatch html_url_pattern url = Some [:: org; repo]
     /\ prefix (GitHub.Pull url n title)
        = Normal (org ++ "/" ++ repo ++ "#" ++ numberToString n))
  /\
  (exists url : string,
     [/\ ~~ startsWith url "https://github.ibm.com/",
         startsWith url "https://githubXibmYcom/",
         regexMatch html_url_pattern url = Some [:: "acme"; "widgets"]
       & prefix (GitHub.Pull url 7 "Speed up") = Normal "acme/widgets#7"]).
Proof.
split.
- move=> c1 c2 org repo rest title n c1_ok c2_ok org_ok repo_ok rest_ok url.
  have m := regexMatch_hostedUrl c1_ok c2_ok org_ok repo_ok rest_ok.
  by split=> //; rewrite /prefix /= m.
- by exists "https://githubXibmYcom/acme/widgets/pull/7"; split; vm_compute.
Qed.

(** C10, an instance: [X] and [Y] where the host has its dots. *)
Lemma host_pattern_leniency_witness :
  let url := hostedUrl "X" "Y" "acme" "widgets" "/pull/7" in
  regexMatch html_url_pattern url = Some [:: "acme"; "widgets"]
  /\ prefix (GitHub.Pull url 7 "Speed up") = Normal "acme/widgets#7".
Proof.
by apply: (proj1 host_pattern_leniency "X"%char "Y"%char "acme" "widgets" "/pull/7"
                 "Speed up" 7);
   vm_compute.
Defined.

(** ** A run of [main] *)

(** In [demoWorld] the first creation is rejected; the batch is issued in
    full all the same. *)
Example addNewIssues_demo :
  let r1 := issueTask (GitHub.Issue "acme/widgets" 12 "Fix bug" "u12") in
  let r2 := issueTask (GitHub.Issue "acme/widgets" 13 "Add test" "u13") in
  addNewIssues demoWorld "GitHub Issues" "github" [::] [:: r1; r2] 0
  = (Normal tt,
     [:: ConsoleLog (Text "Adding issue: acme/widgets#12");
         Call (AddNewTask "GitHub Issues" "acme/widgets#12 Fix bug" "github" "u12");
         ConsoleLog (Text "Adding issue: acme/widgets#13");
         Call (AddNewTask "GitHub Issues" "acme/widgets#13 Add test" "github" "u13");
         ConsoleLog (Text "Waiting for 2 tasks to be added...");
         ConsoleError (Text "OmniFocus is not running")]).
Proof. by vm_compute. Qed.

Example main_demo_calls :
  calls (main demoWorld 0).2
  = [:: ReadFileSync "/Users/me/.github-to-omnifocus.toml";
        IssuesList;
        UsersGetAuthenticated;
        SearchIssuesAndPullRequests
          "type:pr org:cloudant state:open review-requested:octocat";
        TasksForProject "GitHub PRs";
        AddNewTask "GitHub PRs" "acme/widgets#7 Speed up" "github"
                   "https://github.ibm.com/acme/widgets/pull/7";
        MarkTaskComplete "x1"].
Proof. by vm_compute. Qed.

(** C8, an instance: in [demoWorld] the issues pass fails while listing the
    issues, logs the error, and the pull-request pass runs. *)
Lemma category_isolation_witness :
  let table := GithubTable (Some "https://api.github.com") (Some "secret") in
  let cfg := Config (Some table) in
  let trc := [:: ConsoleLog (Text "Reading config at /Users/me/.github-to-omnifocus.toml...");
                 Call (ReadFileSync "/Users/me/.github-to-omnifocus.toml")] in
  loadConfig demoWorld 0 = (Normal cfg, trc) /\
  exists evI evP : seq event,
    [/\ (main demoWorld 0).1 = Normal tt,
        calls (main demoWorld 0).2
        = (calls trc ++ IssuesList :: calls evI ++ UsersGetAuthenticated :: calls evP)%SEQ,
        Call IssuesList :: evI = [:: Call IssuesList; ConsoleError (Err badCredentials)]
      & prsPass demoWorld 7 = (Normal tt, Call UsersGetAuthenticated :: evP)].
Proof.
move=> table cfg trc.
have loaded : loadConfig demoWorld 0 = (Normal cfg, trc) by vm_compute.
split; first exact: loaded.
case: (@category_isolation demoWorld 0 cfg table trc loaded erefl)
  => evI [evP /= [run _ runP logI _]].
have evI_eq : Call IssuesList :: evI = [:: Call IssuesList; ConsoleError (Err badCredentials)].
  by apply: (logI badCredentials [:: Call IssuesList]); vm_compute.
have ended : (main demoWorld 0).1 = Normal tt by rewrite run.
have called : calls (main demoWorld 0).2
    = (calls trc ++ IssuesList :: calls evI ++ UsersGetAuthenticated :: calls evP)%SEQ.
  by rewrite run /calls /= pmap_cat.
have ranP : prsPass demoWorld 7 = (Normal tt, Call UsersGetAuthenticated :: evP).
  by move: runP; rewrite (_ : size evI = 1) //; case: evI_eq => ->.
by exists evI, evP.
Defined.

(** * Further properties of the reconciliation filters *)

Section Plans.

Implicit Types (R : seq potentialTask) (L : seq currentTask).
Implicit Types (r : potentialTask) (l : currentTask).

Lemma planRetirements_nilP L R :
  reflect (forall l, l \in L ->
             has (fun r => startsWith (CurrentTask.title l) (PotentialTask.prefix r)) R)
          (planRetirements L R == [::]).
Proof.
rewrite /planRetirements -[_ == _]negbK -has_filter -all_predC.
apply: (iffP allP) => H l /H /=; rewrite has_map; first by move/negPn.
by move=> ->.
Qed.

(** X1. A plan is empty exactly when everything on its side is matched:
    nothing is created iff every remote item has a task whose title starts
    with its prefix, and nothing is retired iff every task's title starts
    with the prefix of some remote item. *)
Theorem plans_empty_iff R L :
  (planCreations R L = [::] <->
     forall r, r \in R ->
       exists2 l, l \in L & startsWith (CurrentTask.title l) (PotentialTask.prefix r))
  /\
  (planRetirements L R = [::] <->
     forall l, l \in L ->
       exists2 r, r \in R & startsWith (CurrentTask.title l) (PotentialTask.prefix r)).
Proof.
split; split.
- by move/eqP/planCreations_nilP=> H r /H /hasP.
- by move=> H; apply/eqP/planCreations_nilP=> r /H matched; apply/hasP.
- by move/eqP/planRetirements_nilP=> H l /H /hasP.
- by move=> H; apply/eqP/planRetirements_nilP=> l /H matched; apply/hasP.
Qed.

(** X2. The creation plan reads the tasks' titles only, never their ids,
    and more titles can only shrink it: when every title of [L] is a title
    of [L'], the plan against [L'] is a subsequence of the plan against
    [L]; with the same titles on both sides the two plans are equal. *)
Theorem planCreations_titles R L L' :
  {subset [seq CurrentTask.title l | l <- L] <= [seq CurrentTask.title l | l <- L']} ->
  subseq (planCreations R L') (planCreations R L)
  /\ ([seq CurrentTask.title l | l <- L] =i [seq CurrentTask.title l | l <- L'] ->
      planCreations R L' = planCreations R L).
Proof.
move=> sub; split.
- have -> : planCreations R L' = planCreations (planCreations R L) L'.
    rewrite /planCreations -filter_predI; apply: eq_filter => r /=.
    case matched: (has _ L) => /=; last by rewrite andbT.
    rewrite andbF; apply/negbF; move: matched; rewrite !has_titles.
    by case/hasP=> t /sub t_in ok; apply/hasP; exists t.
  exact: filter_subseq.
- move=> same; apply: eq_filter => r; rewrite !has_titles.
  by rewrite (eq_has_r same).
Qed.

(** X2, an instance: the same title under another id, next to a second
    task. *)
Lemma planCreations_titles_witness :
  let R := [:: issueTask (GitHub.Issue "acme/widgets" 12 "Fix bug" "u12");
               issueTask (GitHub.Issue "acme/widgets" 13 "Add test" "u13")] in
  let L := [:: CurrentTask.mk "x1" "acme/widgets#12 Fix bug"] in
  let L' := [:: CurrentTask.mk "y7" "acme/widgets#13 Add test";
                CurrentTask.mk "y8" "acme/widgets#12 Fix bug"] in
  is_true (subseq (planCreations R L') (planCreations R L)).
Proof.
move=> R L L'; apply: (proj1 (@planCreations_titles R L L' _)).
by move=> t; rewrite !inE => /eqP ->; rewrite eqxx orbT.
Defined.

(** X3. The retirement plan reads the remote items' prefixes only, and
    more prefixes can only shrink it. *)
Theorem planRetirements_prefixes L R R' :
  {subset [seq PotentialTask.prefix r | r <- R]
       <= [seq PotentialTask.prefix r | r <- R']} ->
  subseq (planRetirements L R') (planRetirements L R)
  /\ ([seq PotentialTask.prefix r | r <- R] =i [seq PotentialTask.prefix r | r <- R'] ->
      planRetirements L R' = planRetirements L R).
Proof.
move=> sub; split.
- have -> : planRetirements L R' = planRetirements (planRetirements L R) R'.
    rewrite /planRetirements -filter_predI; apply: eq_filter => l /=.
    case matched: (has _ [seq PotentialTask.prefix r | r <- R]) => /=;
      last by rewrite andbT.
    rewrite andbF; apply/negbF.
    by case/hasP: matched => p /sub p_in ok; apply/hasP; exists p.
  exact: filter_subseq.
- by move=> same; apply: eq_filter => l; rewrite (eq_has_r same).
Qed.

(** X3, an instance: a second remote item, and another title and body for
    the first. *)
Lemma planRetirements_prefixes_witness :
  let L := [:: CurrentTask.mk "x1" "acme/widgets#12 Fix bug";
               CurrentTask.mk "x2" "acme/widgets#9 Old"] in
  let R := [:: PotentialTask.mk "acme/widgets#12" "acme/widgets#12 Fix bug" "u12"] in
  let R' := [:: PotentialTask.mk "acme/widgets#13" "acme/widgets#13 Add test" "u13";
                PotentialTask.mk "acme/widgets#12" "acme/widgets#12 Renamed" "v12"] in
  is_true (subseq (planRetirements L R') (planRetirements L R)).
Proof.
move=> L R R'; apply: (proj1 (@planRetirements_prefixes L R R' _)).
by move=> p; rewrite !inE => /eqP ->; rewrite eqxx orbT.
Defined.

(** X4. Prefixes shadow one another.  When the prefix of [r1] is itself a
    prefix of the prefix of [r2], a task made for [r2] passes for a task of
    [r1]: [r1] is never planned for creation, and while [r1] is in the
    remote list that task is never retired, whether or not [r2] still is
    there. *)
Theorem prefix_shadowing R L r1 r2 l :
  startsWith (PotentialTask.prefix r2) (PotentialTask.prefix r1) ->
  l \in L -> startsWith (CurrentTask.title l) (PotentialTask.prefix r2) ->
  r1 \notin planCreations R L
  /\ (r1 \in R -> l \notin planRetirements L R).
Proof.
move=> shadow l_in l_r2.
have l_r1 := startsWith_trans l_r2 shadow.
split=> [|r1_in]; rewrite mem_filter negb_and negbK.
- by apply/orP; left; apply/hasP; exists l.
- by apply/orP; left; rewrite has_map; apply/hasP; exists r1.
Qed.

(** X4, an instance: issue 1 and the task of issue 12 of the same
    repository, issue 12 being closed. *)
Lemma prefix_shadowing_witness :
  let r1 := issueTask (GitHub.Issue "acme/widgets" 1 "Write docs" "u1") in
  let r2 := issueTask (GitHub.Issue "acme/widgets" 12 "Fix bug" "u12") in
  let l := CurrentTask.mk "x12" "acme/widgets#12 Fix bug" in
  r1 \notin planCreations [:: r1] [:: l]
  /\ (r1 \in [:: r1] -> l \notin planRetirements [:: l] [:: r1]).
Proof.
by move=> r1 r2 l; apply: (@prefix_shadowing [:: r1] [:: l] r1 r2 l); vm_compute.
Defined.

(** X5. The two plans do not depend on one another: taking the retired
    tasks out of the local list leaves the creation plan as it is, and
    taking the items to create out of the remote list leaves the retirement
    plan as it is. *)
Theorem plans_independent R L :
  planCreations R (filter (fun l => l \notin planRetirements L R) L)
  = planCreations R L
  /\ planRetirements L (alreadyPresent R L) = planRetirements L R.
Proof.
split.
- apply: eq_in_filter => r r_in; congr (~~ _); apply/hasP/hasP.
    by case=> l; rewrite mem_filter => /andP [_ l_in] ok; exists l.
  case=> l l_in ok; exists l => //; rewrite mem_filter l_in andbT.
  rewrite mem_filter l_in andbT negbK has_map.
  by apply/hasP; exists r.
- apply: eq_in_filter => l l_in; congr (~~ _); rewrite !has_map; apply/hasP/hasP.
    by case=> r; rewrite mem_filter => /andP [_ r_in] ok; exists r.
  case=> r r_in ok; exists r => //; rewrite mem_filter r_in andbT.
  by apply/hasP; exists l.
Qed.

End Plans.

Section CreatedTasks.

Variable storeId : nat -> string.

Implicit Types (R plan : seq potentialTask) (L : seq currentTask).

Lemma applyCreations_cat L plan :
  exists2 created : seq currentTask,
    applyCreations storeId L plan = (L ++ created)%SEQ
    & [seq CurrentTask.title e | e <- created]
      = [seq PotentialTask.title r | r <- plan].
Proof.
rewrite /applyCreations; elim: plan L => [|r plan IH] L /=.
  by exists [::]; rewrite ?cats0.
case: (IH (createTask storeId L (PotentialTask.title r))) => created -> titles.
exists (CurrentTask.mk (storeId (size L)) (PotentialTask.title r) :: created).
- by rewrite /createTask cat_rcons.
- by rewrite /= titles.
Qed.

(** X6. The tasks created from the plan are not stale: with titles built
    as prefix, space, remote title, planning the retirements against the
    same remote list after the creations were applied gives the
    retirements planned before them. *)
Theorem created_tasks_not_retired R L :
  all constructedTitle R ->
  planRetirements (applyCreations storeId L (planCreations R L)) R
  = planRetirements L R.
Proof.
move=> /allP titles.
case: (applyCreations_cat L (planCreations R L)) => created -> created_titles.
rewrite /planRetirements filter_cat -[RHS]cats0; congr (_ ++ _)%SEQ.
apply/eqP; rewrite -[_ == _]negbK -has_filter -all_predC.
apply/allP=> e e_in /=; rewrite negbK has_map.
have /mapP [r r_plan e_r] : CurrentTask.title e
    \in [seq PotentialTask.title r | r <- planCreations R L].
  by rewrite -created_titles; apply: map_f.
have r_in : r \in R by move: r_plan; rewrite mem_filter => /andP [].
apply/hasP; exists r => //=; rewrite e_r.
exact/constructedTitle_startsWith/titles.
Qed.

End CreatedTasks.

(** X6, an instance: one issue to create next to one stale task. *)
Lemma created_tasks_not_retired_witness :
  let R := [:: issueTask (GitHub.Issue "acme/widgets" 12 "Fix bug" "u12")] in
  let L := [:: CurrentTask.mk "x9" "acme/widgets#9 Old"] in
  planRetirements (applyCreations numberToString L (planCreations R L)) R
  = planRetirements L R.
Proof. by move=> R L; apply: created_tasks_not_retired; vm_compute. Defined.

(** * Further properties of the identifiers *)

Section Identifiers.

Implicit Types (a b x y s : string) (c : ascii).

Lemma chars_append a b :
  list_ascii_of_string (a ++ b)
  = (list_ascii_of_string a ++ list_ascii_of_string b)%SEQ.
Proof. by elim: a => [|c a /= ->]. Qed.

(** Cutting at the first [c]. *)
Lemma split_first c a b x y :
  c \notin list_ascii_of_string a -> c \notin list_ascii_of_string b ->
  a ++ String c x = b ++ String c y -> a = b /\ x = y.
Proof.
elim: a b => [|d a IH] [|e b] /=.
- by move=> _ _ [->].
- by rewrite inE negb_or eq_sym => _ /andP [/eqP ne _] [eq_c]; case: ne.
- by rewrite inE negb_or eq_sym => /andP [/eqP ne _] _ [eq_c]; case: ne.
- rewrite !inE !negb_or => /andP [_ a_ok] /andP [_ b_ok] [-> eq_rest].
  by case: (IH b a_ok b_ok eq_rest) => -> ->.
Qed.

(** Cutting at the last [c]. *)
Lemma split_last c a b x y :
  c \notin list_ascii_of_string x -> c \notin list_ascii_of_string y ->
  a ++ String c x = b ++ String c y -> a = b /\ x = y.
Proof.
move=> x_ok y_ok; elim: a b => [|d a IH] [|e b] /=.
- by case=> ->.
- case=> <- eq_x; move: x_ok.
  by rewrite eq_x chars_append mem_cat /= inE eqxx orbT.
- case=> -> eq_y; move: y_ok.
  by rewrite -eq_y chars_append mem_cat /= inE eqxx orbT.
- by case=> -> /IH [-> ->].
Qed.

Lemma numberToString_digits (n : nat) :
  "#"%char \notin list_ascii_of_string (numberToString n).
Proof.
rewrite /numberToString; elim: (Nat.to_uint n) => [|d IH|d IH|d IH|d IH|d IH
  |d IH|d IH|d IH|d IH|d IH] //=; by rewrite inE negb_or IH andbT.
Qed.

Lemma numberToString_inj : injective numberToString.
Proof.
move=> n m eq_nm; apply: DecimalNat.Unsigned.to_uint_inj.
have := NilEmpty.usu (Nat.to_uint n).
by rewrite -/(numberToString n) eq_nm /numberToString NilEmpty.usu => -[].
Qed.

(** X7. The identifier of an issue tells its repository and its number:
    two fetched issues get the same prefix only when both agree. *)
Theorem issue_prefix_injective (i1 i2 : GitHub.issue) :
  PotentialTask.prefix (issueTask i1) = PotentialTask.prefix (issueTask i2) ->
  GitHub.repository_full_name i1 = GitHub.repository_full_name i2
  /\ GitHub.issue_number i1 = GitHub.issue_number i2.
Proof.
rewrite /issueTask /= => /split_last [] //; try exact: numberToString_digits.
by move=> -> /numberToString_inj ->.
Qed.

(** X7, an instance. *)
Lemma issue_prefix_injective_witness :
  let i1 := GitHub.Issue "acme/widgets" 12 "Fix bug" "u12" in
  let i2 := GitHub.Issue "acme/widgets" 12 "Fix bug (again)" "v12" in
  GitHub.repository_full_name i1 = GitHub.repository_full_name i2
  /\ GitHub.issue_number i1 = GitHub.issue_number i2.
Proof. by move=> i1 i2; apply: issue_prefix_injective; vm_compute. Defined.

(** X8. The identifier of a pull request tells the two captured path
    segments and the number: two pull requests get the same identifier
    only when the pattern captures the same segments in both URLs and
    both have the same number. *)
Theorem pull_prefix_injective (t1 t2 : GitHub.pull) (identifier : string) :
  prefix t1 = Normal identifier -> prefix t2 = Normal identifier ->
  regexMatch html_url_pattern (GitHub.html_url t1)
  = regexMatch html_url_pattern (GitHub.html_url t2)
  /\ GitHub.number t1 = GitHub.number t2.
Proof.
case m1: (regexMatch html_url_pattern (GitHub.html_url t1)) => [caps1|];
  last by rewrite prefix_unmatched.
case m2: (regexMatch html_url_pattern (GitHub.html_url t2)) => [caps2|];
  last by rewrite (prefix_unmatched m2).
case: (prefix_matched m1) => org1 [repo1 [-> /andP [_ org1_ok] _ ->]].
case: (prefix_matched m2) => org2 [repo2 [-> /andP [_ org2_ok] _ ->]].
move=> [<-] [] /(split_first org2_ok org1_ok) [-> eq_rest].
have [] := @split_last "#" repo2 repo1 _ _ _ _ eq_rest;
  try exact: numberToString_digits.
by move=> -> /numberToString_inj ->.
Qed.

(** X8, an instance: the same pull request under two titles. *)
Lemma pull_prefix_injective_witness :
  let t1 := GitHub.Pull "https://github.ibm.com/acme/widgets/pull/7" 7 "Speed up" in
  let t2 := GitHub.Pull "https://github.ibm.com/acme/widgets/pull/7/files" 7 "Faster" in
  regexMatch html_url_pattern (GitHub.html_url t1)
  = regexMatch html_url_pattern (GitHub.html_url t2)
  /\ GitHub.number t1 = GitHub.number t2.
Proof.
by move=> t1 t2; apply: (@pull_prefix_injective t1 t2 "acme/widgets#7"); vm_compute.
Defined.

End Identifiers.

(** * Further properties of the pattern match *)

Section Lines.

Implicit Types (p : seq atom) (s pre suf : string) (c : ascii) (b : bool).

(** Whether [^] holds after [pre], when it holds ([b]) or not before it. *)
Let lineStart b pre : bool :=
  isLineTerminator (last (if b then "010"%char else "a"%char)
                         (list_ascii_of_string pre)).

Lemma lineStart_cons b c pre :
  lineStart b (String c pre) = lineStart (isLineTerminator c) pre.
Proof.
rewrite /lineStart /=; case: (list_ascii_of_string pre) => [|d l] //=.
by case: (isLineTerminator c).
Qed.

Lemma matchFrom_complete p caps suf pre b :
  matchHere p suf = Some caps -> lineStart b pre ->
  isSome (matchFrom p b (pre ++ suf)).
Proof.
move=> here; elim: pre b => [|c pre IH] b.
  by rewrite /lineStart /=; case: b => // _; rewrite (matchFrom_here here).
rewrite lineStart_cons => /IH found.
rewrite -[String c pre ++ suf]/(String c (pre ++ suf)) /=.
by case: (if b then _ else _).
Qed.

Lemma matchFrom_sound p caps s b :
  matchFrom p b s = Some caps ->
  exists pre suf, [/\ s = pre ++ suf, lineStart b pre & matchHere p suf = Some caps].
Proof.
elim: s b => [|c s IH] b /=.
  case: b => //; case here: (matchHere p "") => [caps'|] // [<-].
  by exists "", "".
case here: (if b then _ else _) => [caps'|].
  case: b here => // here [<-].
  by exists "", (String c s).
case/IH=> pre [suf [-> start found]].
by exists (String c pre), suf; rewrite lineStart_cons.
Qed.

Lemma matchFrom_singleLine p s : singleLine s -> matchFrom p false s = None.
Proof.
rewrite /singleLine; elim: s => [|c s IH] //=.
by rewrite negb_or => /andP [/negbTE -> /IH].
Qed.

Lemma regexMatch_singleLine p s : singleLine s -> regexMatch p s = matchHere p s.
Proof.
rewrite /regexMatch; case: s => [|c s] /=; first by case: (matchHere p "").
rewrite /singleLine /= negb_or => /andP [/negbTE -> ok].
by case: (matchHere p (String c s)) => //; apply: matchFrom_singleLine.
Qed.

Lemma matchHere_literal_startsWith (lit : string) p s caps :
  matchHere (literal lit ++ p) s = Some caps -> startsWith s lit.
Proof.
elim: lit s => [|c lit IH] [|d s] //=.
by case: ifP => // _ /IH.
Qed.

(** X9. On a URL without line terminators the pattern is anchored at the
    start: the match is the match at position 0, and a URL that does not
    start with [https://github] makes the extractor throw. *)
Theorem single_line_anchored (t : GitHub.pull) :
  singleLine (GitHub.html_url t) ->
  regexMatch html_url_pattern (GitHub.html_url t)
  = matchHere html_url_pattern (GitHub.html_url t)
  /\ (~~ startsWith (GitHub.html_url t) "https://github" ->
      prefix t = Throw (nullIndexError 1)).
Proof.
move=> single; split; first exact: regexMatch_singleLine.
move=> other; apply: prefix_unmatched; rewrite regexMatch_singleLine //.
case here: (matchHere _ _) => [caps|] //.
by move: here other; rewrite /html_url_pattern => /matchHere_literal_startsWith ->.
Qed.

(** X9, an instance: a URL on gitlab.com. *)
Lemma single_line_anchored_witness :
  let t := GitHub.Pull "https://gitlab.com/acme/widgets/pull/7" 7 "Speed up" in
  prefix t = Throw (nullIndexError 1).
Proof.
move=> t; have [] := @single_line_anchored t; first by vm_compute.
by move=> _; apply; vm_compute.
Defined.

(** X10. With the [m] flag the match may start at any line of the URL: the
    extractor returns an identifier exactly when the URL splits into a part
    that is empty or ends with a line terminator and a part the pattern
    matches from its first character. *)
Theorem extractor_matches_any_line (t : GitHub.pull) :
  (exists identifier, prefix t = Normal identifier)
  <->
  (exists pre suf,
     [/\ GitHub.html_url t = pre ++ suf, startsLine pre
       & isSome (matchHere html_url_pattern suf)]).
Proof.
split.
- case m: (regexMatch html_url_pattern (GitHub.html_url t)) => [caps|];
    last by rewrite prefix_unmatched // => -[].
  move=> _; case: (matchFrom_sound m) => pre [suf [-> start here]].
  by exists pre, suf; rewrite here.
- case=> pre [suf [url start]].
  case here: (matchHere html_url_pattern suf) => [caps|] // _.
  have := @matchFrom_complete _ _ _ pre true here start.
  rewrite -url -/(regexMatch _ _).
  case m: (regexMatch _ _) => [caps'|] // _.
  by case: (prefix_matched m) => org [repo [_ _ _ ->]]; eexists.
Qed.

(** X10, an instance: the URL of a pull request on the second line. *)
Lemma extractor_matches_any_line_witness :
  prefix (GitHub.Pull ("see" ++ String "010" "https://github.ibm.com/acme/widgets/pull/7")
                      7 "Speed up")
  = Normal "acme/widgets#7".
Proof.
set t := GitHub.Pull _ _ _.
have [_ found] := extractor_matches_any_line t.
have [] := found; last by move=> identifier; vm_compute => ->.
by exists ("see" ++ String "010" ""), "https://github.ibm.com/acme/widgets/pull/7".
Defined.

End Lines.

(** * Further properties of the passes *)

Lemma await_Rejected (A : Type) (e : js_error) : @await A (Rejected e) = pure (Throw e).
Proof. by []. Qed.

Section Reconcile.

Variable w : world.

Implicit Types (current : seq currentTask) (issues : seq potentialTask).

(** The second half of a pass: the two batches, each followed by its
    "done" line. *)
Lemma reconcile_run (project : string) current issues (added removed : logged) clock :
  let m := (addNewIssues w project newTaskTag current issues ;;
            console_log added ;;
            completeMissingIssues w current issues ;;
            console_log removed)%js in
  (m clock).1 = Normal tt
  /\ calls (m clock).2
     = ([seq AddNewTask project (PotentialTask.title iss) newTaskTag
                        (PotentialTask.body iss)
        | iss <- planCreations issues current]
        ++ [seq MarkTaskComplete (CurrentTask.id t)
           | t <- planRetirements current issues])%SEQ.
Proof.
move=> m; rewrite /m.
case: (addNewIssues_run w project newTaskTag current issues clock) => ps _.
set trA := (_ ++ _)%SEQ => runA.
rewrite (bind_Normal _ runA) /console_log bind_emit.
case: (completeMissingIssues_run w current issues (clock + size trA + 1)) => qs _.
set trC := (_ ++ _)%SEQ => runC.
rewrite (bind_Normal _ runC) /=; split=> //.
rewrite calls_cat [calls (_ :: _)]/= -/(calls _) calls_cat; congr (_ ++ _)%SEQ.
- rewrite /trA calls_cat calls_batch /=.
  by case: (Promise_all ps) => [[]|e] /=; rewrite cats0.
- rewrite /trC calls_cat calls_batch /= cats0.
  by case: (Promise_all qs) => [[]|e] /=; rewrite cats0.
Qed.

End Reconcile.

Section PassTraces.

Variable w : world.

(** X11. A failed fetch ends the issues pass before any OmniFocus action:
    when listing the issues fails the pass logs the error and calls
    nothing else; when listing the tasks of the project fails it logs the
    error and neither adds nor completes a task. *)
Theorem issues_fetch_failure (clock : nat) :
  (forall e : js_error,
     issues_list w clock = Rejected e ->
     issuesPass w clock = (Normal tt, [:: Call IssuesList; ConsoleError (Err e)]))
  /\
  (forall (results : seq GitHub.issue) (e : js_error),
     issues_list w clock = Resolved results ->
     tasksForProject w (clock + 2) omnifocusIssuesProject = Rejected e ->
     issuesPass w clock
     = (Normal tt,
        [:: Call IssuesList;
            ConsoleLog (Text ("Found " ++ numberToString (size results)
                              ++ " assigned issues."));
            Call (TasksForProject omnifocusIssuesProject);
            ConsoleError (Err e)])).
Proof.
split=> [e failed|results e listed failed].
- rewrite /issuesPass /tryCatch /issuesBody bind_external failed await_Rejected.
  by rewrite bind_pure_Throw.
- rewrite /issuesPass /tryCatch /issuesBody bind_external listed await_Resolved.
  rewrite bind_pure_Normal /console_log bind_emit bind_external -addnA failed.
  by rewrite await_Rejected bind_pure_Throw /= size_map.
Qed.

(** X12. The same for the pull-request pass: a failure of
    [users.getAuthenticated], of the search, or of listing the tasks of the
    project ends the pass with the error logged and without any
    [addNewTask] or [markTaskComplete]. *)
Theorem prs_fetch_failure (clock : nat) :
  [/\ forall e : js_error,
        users_getAuthenticated w clock = Rejected e ->
        prsPass w clock
        = (Normal tt, [:: Call UsersGetAuthenticated; ConsoleError (Err e)]),
      forall (username : string) (e : js_error),
        let q := "type:pr org:cloudant state:open review-requested:" ++ username in
        users_getAuthenticated w clock = Resolved username ->
        search_issuesAndPullRequests w (clock + 1) q = Rejected e ->
        prsPass w clock
        = (Normal tt, [:: Call UsersGetAuthenticated;
                          Call (SearchIssuesAndPullRequests q);
                          ConsoleError (Err e)])
    & forall (username : string) (items : seq GitHub.pull)
             (prs : seq potentialTask) (e : js_error),
        let q := "type:pr org:cloudant state:open review-requested:" ++ username in
        users_getAuthenticated w clock = Resolved username ->
        search_issuesAndPullRequests w (clock + 1) q = Resolved items ->
        mapThrowing pullTask items = Normal prs ->
        tasksForProject w (clock + 3) omnifocusPrsProject = Rejected e ->
        prsPass w clock
        = (Normal tt,
           [:: Call UsersGetAuthenticated;
               Call (SearchIssuesAndPullRequests q);
               ConsoleLog (Text ("Found " ++ numberToString (size prs)
                                 ++ " PRs to review."));
               Call (TasksForProject omnifocusPrsProject);
               ConsoleError (Err e)])].
Proof.
split=> [e failed|username e q auth failed|username items prs e q auth found built failed].
- rewrite /prsPass /tryCatch /prsBody bind_external failed await_Rejected.
  by rewrite bind_pure_Throw.
- rewrite /prsPass /tryCatch /prsBody bind_external auth await_Resolved.
  rewrite bind_pure_Normal bind_external -/q failed await_Rejected.
  by rewrite bind_pure_Throw.
- rewrite /prsPass /tryCatch /prsBody bind_external auth await_Resolved.
  rewrite bind_pure_Normal bind_external -/q found await_Resolved bind_pure_Normal.
  rewrite built bind_pure_Normal /console_log bind_emit bind_external.
  by rewrite -!addnA failed await_Rejected bind_pure_Throw.
Qed.

(** X13. When both fetches succeed, the issues pass calls, in this order:
    [issues.list], [tasksForProject] for "GitHub Issues", one [addNewTask]
    per planned creation (project "GitHub Issues", the item's title, tag
    "github", the item's URL as note) and one [markTaskComplete] per planned
    retirement; the plans are those of the fetched issues against the
    fetched tasks. *)
Theorem issuesPass_calls (clock : nat) (results : seq GitHub.issue)
    (tasks : seq OmniFocus.task) :
  issues_list w clock = Resolved results ->
  tasksForProject w (clock + 2) omnifocusIssuesProject = Resolved tasks ->
  let issues := [seq issueTask iss | iss <- results] in
  let current := [seq toCurrentTask t | t <- tasks] in
  (issuesPass w clock).1 = Normal tt
  /\ calls (issuesPass w clock).2
     = ([:: IssuesList; TasksForProject omnifocusIssuesProject]
        ++ [seq AddNewTask omnifocusIssuesProject (PotentialTask.title iss) newTaskTag
                           (PotentialTask.body iss)
           | iss <- planCreations issues current]
        ++ [seq MarkTaskComplete (CurrentTask.id t)
           | t <- planRetirements current issues])%SEQ.
Proof.
move=> listed fetched issues current.
rewrite /issuesPass (pass_run _ (@noExit_issuesBody w)) /issuesBody.
rewrite bind_external listed await_Resolved bind_pure_Normal /console_log bind_emit.
rewrite bind_external -addnA fetched await_Resolved bind_pure_Normal -/issues -/current.
case: (reconcile_run w omnifocusIssuesProject current issues (Text "Issues added!")
         (Text "Issues removed!") (clock + (1 + 1) + 1)) => /= -> calls_eq.
by rewrite cats0 /= calls_eq.
Qed.

(** X14. The same for the pull-request pass when every fetched URL is
    matched by the pattern: [users.getAuthenticated], the search for the
    pull requests awaiting the user's review in org cloudant,
    [tasksForProject] for "GitHub PRs", then the planned creations and the
    planned retirements. *)
Theorem prsPass_calls (clock : nat) (username : string) (items : seq GitHub.pull)
    (prs : seq potentialTask) (tasks : seq OmniFocus.task) :
  let q := "type:pr org:cloudant state:open review-requested:" ++ username in
  users_getAuthenticated w clock = Resolved username ->
  search_issuesAndPullRequests w (clock + 1) q = Resolved items ->
  mapThrowing pullTask items = Normal prs ->
  tasksForProject w (clock + 3) omnifocusPrsProject = Resolved tasks ->
  let current := [seq toCurrentTask t | t <- tasks] in
  (prsPass w clock).1 = Normal tt
  /\ calls (prsPass w clock).2
     = ([:: UsersGetAuthenticated; SearchIssuesAndPullRequests q;
            TasksForProject omnifocusPrsProject]
        ++ [seq AddNewTask omnifocusPrsProject (PotentialTask.title pr) newTaskTag
                           (PotentialTask.body pr)
           | pr <- planCreations prs current]
        ++ [seq MarkTaskComplete (CurrentTask.id t)
           | t <- planRetirements current prs])%SEQ.
Proof.
move=> q auth found built fetched current.
rewrite /prsPass (pass_run _ (@noExit_prsBody w)) /prsBody.
rewrite bind_external auth await_Resolved bind_pure_Normal.
rewrite bind_external -/q found await_Resolved bind_pure_Normal built bind_pure_Normal.
rewrite /console_log bind_emit bind_external -!addnA fetched await_Resolved.
rewrite bind_pure_Normal -/current.
case: (reconcile_run w omnifocusPrsProject current prs (Text "PRs added!")
         (Text "PRs removed!") (clock + (1 + (1 + (1 + 1))))) => /= -> calls_eq.
by rewrite cats0 /= calls_eq.
Qed.

End PassTraces.

(** X11, an instance: listing the issues fails; listing the tasks fails. *)
Lemma issues_fetch_failure_witness :
  let down := steadyWorld (Resolved [::]) (Resolved "octocat") (Resolved [::])
                          (Rejected notRunning) (Resolved tt) (Resolved tt) in
  issuesPass demoWorld 5
  = (Normal tt, [:: Call IssuesList; ConsoleError (Err badCredentials)])
  /\ issuesPass down 5
     = (Normal tt,
        [:: Call IssuesList; ConsoleLog (Text "Found 0 assigned issues.");
            Call (TasksForProject omnifocusIssuesProject);
            ConsoleError (Err notRunning)]).
Proof.
move=> down; split.
- exact: (proj1 (issues_fetch_failure demoWorld 5) badCredentials).
- exact: (proj2 (issues_fetch_failure down 5) [::] notRunning).
Defined.

(** X12, an instance: each of the three fetches of the pull-request pass
    failing in turn. *)
Lemma prs_fetch_failure_witness :
  let noUser := steadyWorld (Resolved [::]) (Rejected badCredentials) (Resolved [::])
                            (Resolved [::]) (Resolved tt) (Resolved tt) in
  let noSearch := steadyWorld (Resolved [::]) (Resolved "octocat")
                              (Rejected badCredentials) (Resolved [::])
                              (Resolved tt) (Resolved tt) in
  let noTasks := steadyWorld (Resolved [::]) (Resolved "octocat") (Resolved [::])
                             (Rejected notRunning) (Resolved tt) (Resolved tt) in
  [/\ calls (prsPass noUser 0).2 = [:: UsersGetAuthenticated],
      calls (prsPass noSearch 0).2
      = [:: UsersGetAuthenticated;
            SearchIssuesAndPullRequests
              "type:pr org:cloudant state:open review-requested:octocat"]
    & calls (prsPass noTasks 0).2
      = [:: UsersGetAuthenticated;
            SearchIssuesAndPullRequests
              "type:pr org:cloudant state:open review-requested:octocat";
            TasksForProject omnifocusPrsProject]].
Proof.
move=> noUser noSearch noTasks; split.
- case: (prs_fetch_failure noUser 0) => onUser _ _.
  by rewrite (onUser badCredentials).
- case: (prs_fetch_failure noSearch 0) => _ onSearch _.
  by rewrite (onSearch "octocat" badCredentials).
- case: (prs_fetch_failure noTasks 0) => _ _ onTasks.
  by rewrite (onTasks "octocat" [::] [::] notRunning).
Defined.

(** X13, an instance: in [calmWorld] the issue is added and the stale task
    completed. *)
Lemma issuesPass_calls_witness :
  calls (issuesPass calmWorld 5).2
  = [:: IssuesList; TasksForProject "GitHub Issues";
        AddNewTask "GitHub Issues" "acme/widgets#12 Fix bug" "github"
                   "https://github.com/acme/widgets/issues/12";
        MarkTaskComplete "x9"].
Proof.
have [] := @issuesPass_calls calmWorld 5
             [:: GitHub.Issue "acme/widgets" 12 "Fix bug"
                              "https://github.com/acme/widgets/issues/12"]
             [:: OmniFocus.Task "x9" "acme/widgets#9 Old"] erefl erefl.
by move=> _ ->; vm_compute.
Defined.

(** X14, an instance: the pull-request pass of [calmWorld]. *)
Lemma prsPass_calls_witness :
  calls (prsPass calmWorld 9).2
  = [:: UsersGetAuthenticated;
        SearchIssuesAndPullRequests
          "type:pr org:cloudant state:open review-requested:octocat";
        TasksForProject "GitHub PRs";
        AddNewTask "GitHub PRs" "acme/widgets#7 Speed up" "github"
                   "https://github.ibm.com/acme/widgets/pull/7";
        MarkTaskComplete "x9"].
Proof.
have [] := @prsPass_calls calmWorld 9 "octocat"
             [:: GitHub.Pull "https://github.ibm.com/acme/widgets/pull/7" 7 "Speed up"]
             [:: PotentialTask.mk "acme/widgets#7" "acme/widgets#7 Speed up"
                                  "https://github.ibm.com/acme/widgets/pull/7"]
             [:: OmniFocus.Task "x9" "acme/widgets#9 Old"] erefl erefl.
- by vm_compute.
- by [].
- by move=> _ ->; vm_compute.
Defined.

(** X15, an instance: one malformed URL next to a well-formed one. *)
Lemma prsPass_malformed_witness :
  let mixed := steadyWorld (Resolved [::]) (Resolved "octocat")
                 (Resolved
                    [:: GitHub.Pull "https://github.ibm.com/acme/widgets/pull/7" 7 "Speed up";
                        GitHub.Pull "https://github.com/acme/gadgets/pull/2" 2 "Typo"])
                 (Resolved [:: OmniFocus.Task "x9" "acme/widgets#9 Old"])
                 (Resolved tt) (Resolved tt) in
  prsPass mixed 0
  = (Normal tt,
     [:: Call UsersGetAuthenticated;
         Call (SearchIssuesAndPullRequests
                 "type:pr org:cloudant state:open review-requested:octocat");
         ConsoleError (Err (nullIndexError 1))]).
Proof.
move=> mixed.
by apply: (@prsPass_malformed mixed 0 "octocat"
             [:: GitHub.Pull "https://github.ibm.com/acme/widgets/pull/7" 7 "Speed up";
                 GitHub.Pull "https://github.com/acme/gadgets/pull/2" 2 "Typo"]);
   vm_compute.
Defined.

(** * Further properties of [main] *)

Section Main.

Variable w : world.

Let configFilePath : string := homedir w ++ "/.github-to-omnifocus.toml".
Let reading : event :=
  ConsoleLog (Text ("Reading config at " ++ configFilePath ++ "...")).

Lemma loadConfig_run (clock : nat) :
  loadConfig w clock
  = match readFileSync w configFilePath with
    | Rejected e =>
        (Exit 1, [:: reading; Call (ReadFileSync configFilePath); ConsoleError (Err e)])
    | Resolved tomlConfig =>
        match toml_parse w tomlConfig with
        | inl config => (Normal config, [:: reading; Call (ReadFileSync configFilePath)])
        | inr e =>
            (Exit 1,
             [:: reading; Call (ReadFileSync configFilePath);
                 ConsoleError
                   (Text ("Parsing error on line " ++ numberToString (line e)
                          ++ ", column " ++ numberToString (column e) ++ ": "
                          ++ message e))])
        end
    end.
Proof.
rewrite /loadConfig /console_log bind_emit -/configFilePath -/reading.
rewrite /bind /tryCatch /external /=.
case: (readFileSync w configFilePath) => [tomlConfig|e] //=.
by case: (toml_parse w tomlConfig) => [config|e].
Qed.

(** X16. When the configuration file cannot be read, or cannot be parsed,
    [main] logs the error and exits with code 1 without calling GitHub or
    OmniFocus: reading the file is the only external call of the run. *)
Theorem config_failure_exits (clock : nat) :
  (forall e : js_error,
     readFileSync w configFilePath = Rejected e ->
     main w clock
     = (Exit 1, [:: reading; Call (ReadFileSync configFilePath); ConsoleError (Err e)]))
  /\
  (forall (tomlConfig : string) (e : tomlError),
     readFileSync w configFilePath = Resolved tomlConfig ->
     toml_parse w tomlConfig = inr e ->
     main w clock
     = (Exit 1,
        [:: reading; Call (ReadFileSync configFilePath);
            ConsoleError
              (Text ("Parsing error on line " ++ numberToString (line e)
                     ++ ", column " ++ numberToString (column e) ++ ": "
                     ++ message e))])).
Proof.
split=> [e unread|tomlConfig e read unparsed].
- by rewrite /main /bind loadConfig_run unread.
- by rewrite /main /bind loadConfig_run read unparsed.
Qed.


End Main.

(** X16, an instance: an unreadable file, and a file that does not parse. *)
Lemma config_failure_exits_witness :
  let noFile := JsError "Error" "ENOENT: no such file or directory" in
  let unreadable :=
    World "/Users/me" (fun _ => Rejected noFile) (toml_parse demoWorld)
          (issues_list demoWorld) (users_getAuthenticated demoWorld)
          (search_issuesAndPullRequests demoWorld) (tasksForProject demoWorld)
          (addNewTask demoWorld) (markTaskComplete demoWorld) in
  let unparsable :=
    World "/Users/me" (fun _ => Resolved "[github") (fun _ => inr (TomlError 1 8 "Expected ]"))
          (issues_list demoWorld) (users_getAuthenticated demoWorld)
          (search_issuesAndPullRequests demoWorld) (tasksForProject demoWorld)
          (addNewTask demoWorld) (markTaskComplete demoWorld) in
  main unreadable 0
  = (Exit 1,
     [:: ConsoleLog (Text "Reading config at /Users/me/.github-to-omnifocus.toml...");
         Call (ReadFileSync "/Users/me/.github-to-omnifocus.toml");
         ConsoleError (Err noFile)])
  /\ main unparsable 0
     = (Exit 1,
        [:: ConsoleLog (Text "Reading config at /Users/me/.github-to-omnifocus.toml...");
            Call (ReadFileSync "/Users/me/.github-to-omnifocus.toml");
            ConsoleError (Text "Parsing error on line 1, column 8: Expected ]")]).
Proof.
move=> noFile unreadable unparsable; split.
- exact: (proj1 (config_failure_exits unreadable 0) noFile).
- exact: (proj2 (config_failure_exits unparsable 0) "[github" (TomlError 1 8 "Expected ]")).
Defined.

(** * Further properties of the batches *)

Section BatchAnswers.

Variables (A B : Type) (P : B -> bool).



End BatchAnswers.




Section ErrorLines.

Variable w : world.

Implicit Types (current : seq currentTask) (issues : seq potentialTask).






End ErrorLines.



